(** * Receipt scanning pipeline of [backend/server.py]

    A shallow embedding of the [scan_receipt] endpoint: byte-signature
    sniffing, image normalisation through PIL, clean-up of the provider's
    text, [json.loads], and the assembly of a [ReceiptScanResult].

    Python values are modelled as the interpreter has them: [str] is a
    sequence of Unicode code points, [bytes] a sequence of octets, [int] an
    unbounded integer and [float] an IEEE 754 binary64 number (Rocq's
    primitive floats).  Exceptions are values of [exn]; code that can raise
    returns [exn + A].

    PIL, the provider behind [httpx] and pydantic's lax coercions are
    interfaces ([PIL], [Provider], [PydanticLax]): the properties hold for
    every implementation, and small instances are given to run the code.
    Authentication, logging and the text of the prompt are left out. *)

From Stdlib Require Import ZArith NArith String Ascii Bool Lia Floats List.
From Stdlib.Strings Require Import Byte.
Import ListNotations.
Open Scope Z_scope.

(** ** Python strings *)

Definition str := list N.

(** An ASCII literal of the source, as a sequence of code points. *)
Definition lit (s : string) : str := map N_of_ascii (list_ascii_of_string s).

Fixpoint eqb_str (a b : str) : bool :=
  match a, b with
  | [], [] => true
  | x :: a', y :: b' => N.eqb x y && eqb_str a' b'
  | _, _ => false
  end.

(** [s.startswith(p)] *)
Fixpoint startswith (p s : str) : bool :=
  match p, s with
  | [], _ => true
  | x :: p', y :: s' => N.eqb x y && startswith p' s'
  | _ :: _, [] => false
  end.

(** [s.partition(sep)]: the text before and after the first occurrence of
    [sep], or [None] when [sep] does not occur. *)
Fixpoint partition (sep s : str) : option (str * str) :=
  if startswith sep s then Some ([], skipn (length sep) s)
  else match s with
       | [] => None
       | c :: s' =>
           match partition sep s' with
           | Some (a, b) => Some (c :: a, b)
           | None => None
           end
       end.

(** [sep in s] *)
Definition contains (sep s : str) : bool :=
  match partition sep s with Some _ => true | None => false end.

(** [s.split(sep)] for a non-empty [sep]; every cut removes at least one
    character, so [length s] rounds suffice. *)
Fixpoint split_fuel (fuel : nat) (sep s : str) : list str :=
  match partition sep s with
  | None => [s]
  | Some (a, b) =>
      match fuel with
      | O => [a; b]
      | S fuel' => a :: split_fuel fuel' sep b
      end
  end.

Definition split (sep s : str) : list str := split_fuel (length s) sep s.

(** [sep.join(pieces)] *)
Fixpoint join (sep : str) (pieces : list str) : str :=
  match pieces with
  | [] => []
  | [p] => p
  | p :: rest => p ++ sep ++ join sep rest
  end.

(** Code points for which [str.isspace] holds: what [str.strip()] removes. *)
Definition isspace (c : N) : bool :=
  ((9 <=? c) && (c <=? 13) || (28 <=? c) && (c <=? 32)
   || (c =? 133) || (c =? 160) || (c =? 5760)
   || (8192 <=? c) && (c <=? 8202)
   || (c =? 8232) || (c =? 8233) || (c =? 8239) || (c =? 8287)
   || (c =? 12288))%N.

Fixpoint lstrip (s : str) : str :=
  match s with
  | c :: s' => if isspace c then lstrip s' else s
  | [] => []
  end.

Definition rstrip (s : str) : str := rev (lstrip (rev s)).

(** [s.strip()] *)
Definition strip (s : str) : str := rstrip (lstrip s).

(** ** Exceptions and HTTP errors *)

Inductive exn :=
| TypeError
| ValueError
| KeyError
| IndexError
| AttributeError
| OverflowError
| ZeroDivisionError
| JSONDecodeError
| ValidationError      (* pydantic *)
| ImageError           (* whatever PIL raises *)
| TransportError.      (* whatever httpx raises *)

(** The [detail] of an [HTTPException]; the text of the underlying
    exception, which the source interpolates with [str(e)], is kept as the
    exception itself. *)
Inductive detail :=
| PdfNotSupported
| CouldNotProcessImage (e : exn)
| AIServiceError (status : Z)
| FailedToParseAIResponse
| FailedToScanReceipt (e : exn).

Record HTTPException := mkHTTP { status_code : Z; http_detail : detail }.

Definition bind {E A B : Type} (c : E + A) (k : A -> E + B) : E + B :=
  match c with
  | inl e => inl e
  | inr a => k a
  end.

Notation "x <- c ;; k" := (bind c (fun x => k))
  (at level 61, c at next level, right associativity).
Notation "' p <- c ;; k" := (bind c (fun p => k))
  (at level 61, p pattern, c at next level, right associativity).

(** ** Python numbers *)

(** Round the quotient [p / q] of two positive integers to the nearest
    binary64 number, ties to even. *)
Definition round_quotient (neg : bool) (p q : Z) : float :=
  match p with
  | Z0 => SF2Prim (S754_zero neg)
  | _ =>
      let '(m, e, l) := SFdiv_core_binary prec emax p 0 q 0 in
      SF2Prim (binary_round_aux prec emax neg m e l)
  end.

Definition is_inf (f : float) : bool :=
  match Prim2SF f with S754_infinity _ => true | _ => false end.

(** [float(n)] for an [int]: correctly rounded, [OverflowError] when the
    integer is too large. *)
Definition float_of_int (z : Z) : exn + float :=
  let f := SF2Prim (binary_normalize prec emax z 0 false) in
  if is_inf f then inl OverflowError else inr f.

(** [a / b] on two [int]s (true division). *)
Definition int_truediv (a b : Z) : exn + float :=
  if b =? 0 then inl ZeroDivisionError
  else
    let f := round_quotient (xorb (a <? 0) (b <? 0)) (Z.abs a) (Z.abs b) in
    if is_inf f then inl OverflowError else inr f.

(** [n * x] for an [int] and a [float]. *)
Definition int_mul_float (n : Z) (x : float) : exn + float :=
  f <- float_of_int n ;; inr (PrimFloat.mul f x).

(** [min(a, b)] on floats: the second argument only when it is smaller. *)
Definition float_min (a b : float) : float :=
  if PrimFloat.ltb b a then b else a.

(** [int(x)] for a [float]: truncation towards zero. *)
Definition int_of_float (x : float) : exn + Z :=
  match Prim2SF x with
  | S754_zero _ => inr 0
  | S754_finite s m e =>
      let v := match e with
               | Z0 => Zpos m
               | Zpos p => Zpos m * 2 ^ Zpos p
               | Zneg p => Zpos m / 2 ^ Zpos p
               end in
      inr (if s then - v else v)
  | S754_infinity _ => inl OverflowError
  | S754_nan => inl ValueError
  end.

(** ** Byte signatures (server.py 300-313) *)

Definition bytes := list byte.

Fixpoint eqb_bytes (a b : bytes) : bool :=
  match a, b with
  | [], [] => true
  | x :: a', y :: b' => Byte.eqb x y && eqb_bytes a' b'
  | _, _ => false
  end.

(** [content[i:j]] for [0 <= i <= j]. *)
Definition slice (i j : nat) (content : bytes) : bytes :=
  firstn (j - i) (skipn i content).

Definition png_signature : bytes := [x89; x50; x4e; x47; x0d; x0a; x1a; x0a].
Definition jpeg_signature : bytes := [xff; xd8].
Definition riff_marker : bytes := [x52; x49; x46; x46].
Definition webp_marker : bytes := [x57; x45; x42; x50].
Definition pdf_signature : bytes := [x25; x50; x44; x46].

Definition image_jpeg : str := lit "image/jpeg".
Definition image_png : str := lit "image/png".
Definition image_webp : str := lit "image/webp".
Definition application_pdf : str := lit "application/pdf".

Record UploadFile := mkUpload { file_content : bytes; content_type : option str }.

Definition detect_type (content : bytes) : str :=
  if eqb_bytes (slice 0 8 content) png_signature then image_png
  else if eqb_bytes (slice 0 2 content) jpeg_signature then image_jpeg
  else if eqb_bytes (slice 0 4 content) riff_marker
          && eqb_bytes (slice 8 12 content) webp_marker then image_webp
  else if eqb_bytes (slice 0 4 content) pdf_signature then application_pdf
  else image_jpeg.

(** ** The imaging library *)

(** What [scan_receipt] uses of PIL.  Every operation may raise. *)
Class PIL := {
  image : Type;
  width : image -> Z;
  height : image -> Z;
  mode : image -> str;
  (** [PILImage.open(io.BytesIO(content))] *)
  PIL_open : bytes -> exn + image;
  (** [img.convert(mode)] *)
  convert : image -> str -> exn + image;
  (** [img.resize(size, PILImage.Resampling.LANCZOS)] *)
  resize : image -> Z * Z -> exn + image;
  (** [img.save(buffer, format='JPEG', quality=q, optimize=True)] followed
      by [buffer.getvalue()] *)
  save_jpeg : image -> Z -> exn + bytes
}.

(** The calls made to the library, in order. *)
Inductive pil_call :=
| Open
| Convert (to_mode : str)
| Resize (size : Z * Z)
| Save (quality : Z).

(** Computations that may raise and that record their library calls. *)
Definition M (A : Type) : Type := list pil_call -> (exn + A) * list pil_call.

Definition m_ret {A : Type} (a : A) : M A := fun log => (inr a, log).

Definition m_bind {A B : Type} (c : M A) (k : A -> M B) : M B :=
  fun log =>
    match c log with
    | (inl e, log') => (inl e, log')
    | (inr a, log') => k a log'
    end.

Definition lift {A : Type} (r : exn + A) : M A := fun log => (r, log).

Definition call {A : Type} (ev : pil_call) (r : exn + A) : M A :=
  fun log => (r, log ++ [ev]).

Notation "x <~ c ;; k" := (m_bind c (fun x => k))
  (at level 61, c at next level, right associativity).

(** ** Image normalisation (server.py 315-344) *)

Definition max_dimension : Z := 1500.

(** Lines 326-327: the target size of an oversized image. *)
Definition new_size (w h : Z) : exn + (Z * Z) :=
  rw <- int_truediv max_dimension w ;;
  rh <- int_truediv max_dimension h ;;
  let ratio := float_min rw rh in
  fw <- int_mul_float w ratio ;;
  nw <- int_of_float fw ;;
  fh <- int_mul_float h ratio ;;
  nh <- int_of_float fh ;;
  inr (nw, nh).

Definition size_ceiling : Z := 3 * 1024 * 1024.

Section Normalizer.
Context {pil : PIL}.

(** The body of the [try] block. *)
Definition process_image (content : bytes) : M (bytes * str) :=
  img <~ call Open (PIL_open content) ;;
  img <~ (if negb (eqb_str (mode img) (lit "RGB"))
          then call (Convert (lit "RGB")) (convert img (lit "RGB"))
          else m_ret img) ;;
  img <~ (if (width img >? max_dimension) || (height img >? max_dimension)
          then size <~ lift (new_size (width img) (height img)) ;;
               call (Resize size) (resize img size)
          else m_ret img) ;;
  content <~ call (Save 85) (save_jpeg img 85) ;;
  let detected_type := image_jpeg in
  content <~ (if Z.of_nat (length content) >? size_ceiling
              then call (Save 50) (save_jpeg img 50)
              else m_ret content) ;;
  m_ret (content, detected_type).

(** Lines 297-344: sniff, reject PDF, re-encode.  The result is the
    payload and media type sent to the provider, with the library calls
    that produced it. *)
Definition normalize_image (file : UploadFile)
  : (HTTPException + (bytes * str)) * list pil_call :=
  let content := file_content file in
  let detected_type := detect_type content in
  if eqb_str detected_type application_pdf
  then (inl (mkHTTP 400 PdfNotSupported), [])
  else
    match process_image content [] with
    | (inl e, log) => (inl (mkHTTP 400 (CouldNotProcessImage e)), log)
    | (inr out, log) => (inr out, log)
    end.
End Normalizer.

(** The qualities of the encodes recorded in a log, in order. *)
Fixpoint encodes (log : list pil_call) : list Z :=
  match log with
  | Save q :: log' => q :: encodes log'
  | _ :: log' => encodes log'
  | [] => []
  end.

(** The sizes requested from [resize], in order. *)
Fixpoint resizes (log : list pil_call) : list (Z * Z) :=
  match log with
  | Resize sz :: log' => sz :: resizes log'
  | _ :: log' => resizes log'
  | [] => []
  end.

(** A toy imaging library, for running the normaliser: an image is its
    size and mode, every non-empty payload decodes to a [w] by [h] image
    of mode [m], and a JPEG at quality [q] takes
    [width * height * q / scale] bytes. *)
Record toy_image := mkToy { toy_w : Z; toy_h : Z; toy_mode : str }.

Definition toy_decode (w h : Z) (m : str) (content : bytes) : exn + toy_image :=
  match content with
  | [] => inl ImageError
  | _ => inr (mkToy w h m)
  end.

Definition toy_pil (w h : Z) (m : str) (scale : Z) : PIL := {|
  image := toy_image;
  width := toy_w;
  height := toy_h;
  mode := toy_mode;
  PIL_open := toy_decode w h m;
  convert := fun img m' => inr (mkToy (toy_w img) (toy_h img) m');
  resize := fun img sz =>
    if (fst sz <? 1) || (snd sz <? 1) then inl ValueError
    else inr (mkToy (fst sz) (snd sz) (toy_mode img));
  save_jpeg := fun img q =>
    inr (repeat x00 (Z.to_nat (toy_w img * toy_h img * q / scale)))
|}.

(** ** Python objects, as [json.loads] builds them *)

#[local] Set Warnings "-register-all".

Inductive pyobj :=
| PyNone
| PyBool (b : bool)
| PyInt (z : Z)
| PyFloat (f : float)
| PyStr (s : str)
| PyList (l : list pyobj)
| PyDict (d : list (str * pyobj)).

Definition dict := list (str * pyobj).

(** [d.get(key)] *)
Fixpoint dict_get (key : str) (d : dict) : option pyobj :=
  match d with
  | [] => None
  | (k, v) :: d' => if eqb_str k key then Some v else dict_get key d'
  end.

(** [d.get(key, default)] *)
Definition dict_get_default (key : str) (default : pyobj) (d : dict) : pyobj :=
  match dict_get key d with
  | Some v => v
  | None => default
  end.

(** [d[key] = v] *)
Fixpoint dict_set (key : str) (v : pyobj) (d : dict) : dict :=
  match d with
  | [] => [(key, v)]
  | (k, w) :: d' =>
      if eqb_str k key then (k, v) :: d' else (k, w) :: dict_set key v d'
  end.

(** ** Decimal numerals *)

Definition ch (a : ascii) : N := N_of_ascii a.

(** The double quote. *)
Definition dquote : N := 34%N.

Definition is_digit (c : N) : bool := ((48 <=? c) && (c <=? 57))%N.

Fixpoint span_digits (s : str) : str * str :=
  match s with
  | c :: s' =>
      if is_digit c then let '(ds, r) := span_digits s' in (c :: ds, r)
      else ([], s)
  | [] => ([], [])
  end.

Definition digits_value (ds : str) : Z :=
  fold_left (fun acc c => 10 * acc + (Z.of_N c - 48)) ds 0.

(** The binary64 number nearest to [(-1)^neg * m * 10^e]. *)
Definition dec_to_float (neg : bool) (m e : Z) : float :=
  if 0 <=? e
  then SF2Prim (binary_normalize prec emax
                  (if neg then - (m * 10 ^ e) else m * 10 ^ e) 0 neg)
  else round_quotient neg m (10 ^ (- e)).

(** An optional exponent part [e[+-]ddd]; when no digit follows, nothing
    is consumed. *)
Definition scan_exponent (s : str) : option Z * str :=
  match s with
  | c :: s1 =>
      if (c =? ch "e")%N || (c =? ch "E")%N then
        let '(neg, s2) :=
          match s1 with
          | sg :: s2 =>
              if (sg =? ch "-")%N then (true, s2)
              else if (sg =? ch "+")%N then (false, s2)
              else (false, s1)
          | [] => (false, s1)
          end in
        match span_digits s2 with
        | ([], _) => (None, s)
        | (ds, r) => (Some (if neg then - digits_value ds else digits_value ds), r)
        end
      else (None, s)
  | [] => (None, s)
  end.

(** The value of [int_part.frac_part e exp]. *)
Definition decimal_float (neg : bool) (int_part frac_part : str) (exp : Z) : float :=
  dec_to_float neg (digits_value (int_part ++ frac_part))
               (exp - Z.of_nat (length frac_part)).

Definition nan : float := SF2Prim S754_nan.
Definition float_inf (neg : bool) : float := SF2Prim (S754_infinity neg).

(** ** [json.loads] *)

(** [int(numstr)]: the interpreter refuses more than 4300 digits. *)
Definition max_str_digits : nat := 4300.

Definition is_json_ws (c : N) : bool :=
  ((c =? 32) || (c =? 9) || (c =? 10) || (c =? 13))%N.

Fixpoint skip_ws (s : str) : str :=
  match s with
  | c :: s' => if is_json_ws c then skip_ws s' else s
  | [] => []
  end.

Definition hex_value (c : N) : option N :=
  (if (48 <=? c) && (c <=? 57) then Some (c - 48)
   else if (97 <=? c) && (c <=? 102) then Some (c - 87)
   else if (65 <=? c) && (c <=? 70) then Some (c - 55)
   else None)%N.

(** Four hexadecimal digits. *)
Definition decode_uXXXX (s : str) : option (N * str) :=
  match s with
  | a :: b :: c :: d :: r =>
      match hex_value a, hex_value b, hex_value c, hex_value d with
      | Some a, Some b, Some c, Some d =>
          Some (((a * 16 + b) * 16 + c) * 16 + d, r)%N
      | _, _, _, _ => None
      end
  | _ => None
  end.

Definition is_high_surrogate (c : N) : bool := ((55296 <=? c) && (c <=? 56319))%N.
Definition is_low_surrogate (c : N) : bool := ((56320 <=? c) && (c <=? 57343))%N.
Definition join_surrogates (hi lo : N) : N :=
  (65536 + ((hi - 55296) * 1024 + (lo - 56320)))%N.

Definition simple_escape (c : N) : option N :=
  (if c =? dquote then Some (dquote)
   else if c =? ch "\" then Some (ch "\")
   else if c =? ch "/" then Some (ch "/")
   else if c =? ch "b" then Some 8
   else if c =? ch "f" then Some 12
   else if c =? ch "n" then Some 10
   else if c =? ch "r" then Some 13
   else if c =? ch "t" then Some 9
   else None)%N.

(** The body of a string literal, after its opening quote (strict mode:
    no raw control character). *)
Fixpoint scanstring (fuel : nat) (s acc : str) : option (str * str) :=
  match fuel with
  | O => None
  | S fuel' =>
      match s with
      | [] => None
      | c :: s1 =>
          if (c =? dquote)%N then Some (rev acc, s1)
          else if (c =? ch "\")%N then
            match s1 with
            | [] => None
            | e :: s2 =>
                if (e =? ch "u")%N then
                  match decode_uXXXX s2 with
                  | None => None
                  | Some (uni, s3) =>
                      if is_high_surrogate uni && startswith (lit "\u") s3 then
                        match decode_uXXXX (skipn 2 s3) with
                        | None => None
                        | Some (uni2, s4) =>
                            if is_low_surrogate uni2
                            then scanstring fuel' s4 (join_surrogates uni uni2 :: acc)
                            else scanstring fuel' s3 (uni :: acc)
                        end
                      else scanstring fuel' s3 (uni :: acc)
                  end
                else
                  match simple_escape e with
                  | Some x => scanstring fuel' s2 (x :: acc)
                  | None => None
                  end
            end
          else if (c <=? 31)%N then None
          else scanstring fuel' s1 (c :: acc)
      end
  end.

(** A number literal: an optional minus sign, an integer part without
    leading zero, an optional fraction, an optional exponent. *)
Definition match_number (s : str) : option (exn + pyobj * str) :=
  let '(neg, s1) :=
    match s with
    | c :: s' => if (c =? ch "-")%N then (true, s') else (false, s)
    | [] => (false, s)
    end in
  let '(int_part, s2) :=
    match s1 with
    | c :: s' =>
        if (c =? ch "0")%N then ([c], s')
        else span_digits s1
    | [] => ([], s1)
    end in
  match int_part with
  | [] => None
  | _ =>
      let '(frac_part, s3) :=
        match s2 with
        | c :: s' =>
            if (c =? ch ".")%N then
              match span_digits s' with
              | ([], _) => ([], s2)
              | (ds, r) => (ds, r)
              end
            else ([], s2)
        | [] => ([], s2)
        end in
      let '(exp, s4) := scan_exponent s3 in
      match frac_part, exp with
      | [], None =>
          if Nat.ltb max_str_digits (length int_part)
          then Some (inl ValueError)
          else Some (inr (PyInt (if neg then - digits_value int_part
                                 else digits_value int_part), s4))
      | _, _ =>
          Some (inr (PyFloat (decimal_float neg int_part frac_part
                                (match exp with Some e => e | None => 0 end)),
                     s4))
      end
  end.

(** [scan_once], with the object and array loops.  Every call consumes
    at least one character, so a fuel of one more than the length of the
    text is never exhausted; the interpreter's recursion limit on deeply
    nested values is not modelled. *)
Fixpoint scan_once (fuel : nat) (s : str) : exn + pyobj * str :=
  match fuel with
  | O => inl JSONDecodeError
  | S fuel' =>
      match s with
      | [] => inl JSONDecodeError
      | c :: s1 =>
          if (c =? dquote)%N then
            match scanstring (S (length s1)) s1 [] with
            | Some (v, r) => inr (PyStr v, r)
            | None => inl JSONDecodeError
            end
          else if (c =? ch "{")%N then
            match skip_ws s1 with
            | c' :: r =>
                if (c' =? ch "}")%N then inr (PyDict [], r)
                else parse_pairs fuel' (c' :: r) []
            | [] => inl JSONDecodeError
            end
          else if (c =? ch "[")%N then
            match skip_ws s1 with
            | c' :: r =>
                if (c' =? ch "]")%N then inr (PyList [], r)
                else parse_items fuel' (c' :: r) []
            | [] => inl JSONDecodeError
            end
          else if startswith (lit "null") s then inr (PyNone, skipn 4 s)
          else if startswith (lit "true") s then inr (PyBool true, skipn 4 s)
          else if startswith (lit "false") s then inr (PyBool false, skipn 5 s)
          else if startswith (lit "NaN") s then inr (PyFloat nan, skipn 3 s)
          else if startswith (lit "Infinity") s
               then inr (PyFloat (float_inf false), skipn 8 s)
          else if startswith (lit "-Infinity") s
               then inr (PyFloat (float_inf true), skipn 9 s)
          else
            match match_number s with
            | Some r => r
            | None => inl JSONDecodeError
            end
      end
  end

with parse_pairs (fuel : nat) (s : str) (acc : dict) : exn + pyobj * str :=
  match fuel with
  | O => inl JSONDecodeError
  | S fuel' =>
      match s with
      | c :: s1 =>
          if (c =? dquote)%N then
            match scanstring (S (length s1)) s1 [] with
            | None => inl JSONDecodeError
            | Some (key, s2) =>
                match skip_ws s2 with
                | c2 :: s3 =>
                    if (c2 =? ch ":")%N then
                      '(v, s4) <- scan_once fuel' (skip_ws s3) ;;
                      let acc' := dict_set key v acc in
                      match skip_ws s4 with
                      | c5 :: s5 =>
                          if (c5 =? ch "}")%N then inr (PyDict acc', s5)
                          else if (c5 =? ch ",")%N
                               then parse_pairs fuel' (skip_ws s5) acc'
                          else inl JSONDecodeError
                      | [] => inl JSONDecodeError
                      end
                    else inl JSONDecodeError
                | [] => inl JSONDecodeError
                end
            end
          else inl JSONDecodeError
      | [] => inl JSONDecodeError
      end
  end

with parse_items (fuel : nat) (s : str) (acc : list pyobj) : exn + pyobj * str :=
  match fuel with
  | O => inl JSONDecodeError
  | S fuel' =>
      '(v, s1) <- scan_once fuel' s ;;
      match skip_ws s1 with
      | c :: s2 =>
          if (c =? ch "]")%N then inr (PyList (rev (v :: acc)), s2)
          else if (c =? ch ",")%N
               then parse_items fuel' (skip_ws s2) (v :: acc)
          else inl JSONDecodeError
      | [] => inl JSONDecodeError
      end
  end.

Definition json_loads (s : str) : exn + pyobj :=
  '(v, rest) <- scan_once (S (length s)) (skip_ws s) ;;
  match skip_ws rest with
  | [] => inr v
  | _ :: _ => inl JSONDecodeError
  end.

(** ** The builtin [float] *)

(** The C locale's [isspace]. *)
Definition is_c_space (c : N) : bool := ((c =? 32) || (9 <=? c) && (c <=? 13))%N.

(** Underscores may only stand between two digits; [prev] is the
    character before [s]. *)
Fixpoint strip_underscores (prev : N) (s : str) : option str :=
  match s with
  | [] => if (prev =? ch "_")%N then None else Some []
  | c :: s' =>
      if (c =? ch "_")%N then
        if is_digit prev then strip_underscores c s' else None
      else if (prev =? ch "_")%N && negb (is_digit c) then None
      else option_map (cons c) (strip_underscores c s')
  end.

Fixpoint lstrip_c (s : str) : str :=
  match s with
  | c :: s' => if is_c_space c then lstrip_c s' else s
  | [] => []
  end.

Definition ascii_lower (c : N) : N :=
  (if (65 <=? c) && (c <=? 90) then c + 32 else c)%N.

(** A decimal literal, [inf], [infinity] or [nan], with an optional sign;
    the whole of [s] must be consumed. *)
Definition parse_float_literal (s : str) : option float :=
  let '(neg, s1) :=
    match s with
    | c :: s' =>
        if (c =? ch "-")%N then (true, s')
        else if (c =? ch "+")%N then (false, s')
        else (false, s)
    | [] => (false, s)
    end in
  let '(int_part, s2) := span_digits s1 in
  let '(frac_part, s3) :=
    match s2 with
    | c :: s' => if (c =? ch ".")%N then span_digits s' else ([], s2)
    | [] => ([], s2)
    end in
  match int_part ++ frac_part with
  | [] =>
      let word := map ascii_lower s1 in
      if eqb_str word (lit "inf") || eqb_str word (lit "infinity")
      then Some (float_inf neg)
      else if eqb_str word (lit "nan") then Some nan
      else None
  | _ :: _ =>
      match scan_exponent s3 with
      | (exp, []) =>
          Some (decimal_float neg int_part frac_part
                  (match exp with Some e => e | None => 0 end))
      | (_, _ :: _) => None
      end
  end.

(** The code points of the digits zero of the Unicode database of the
    interpreter (version 14.0.0, as CPython 3.11 carries it): each is
    followed by the digits one to nine of its script. *)
Definition decimal_zeros : list N :=
  [ 48; 1632; 1776; 1984; 2406; 2534; 2662; 2790; 2918; 3046; 3174; 3302;
    3430; 3558; 3664; 3792; 3872; 4160; 4240; 6112; 6160; 6470; 6608; 6784;
    6800; 6992; 7088; 7232; 7248; 42528; 43216; 43264; 43472; 43504; 43600;
    44016; 65296; 66720; 68912; 69734; 69872; 69942; 70096; 70384; 70736;
    70864; 71248; 71360; 71472; 71904; 72016; 72784; 73040; 73120; 92768;
    92864; 93008; 120782; 120792; 120802; 120812; 120822; 123200; 123632;
    125264; 130032 ]%N.

(** [Py_UNICODE_TODECIMAL]: the value of a decimal digit of any script. *)
Definition unicode_decimal (c : N) : option N :=
  match find (fun z => (z <=? c) && (c <? z + 10))%N decimal_zeros with
  | Some z => Some (c - z)%N
  | None => None
  end.

(** What [float] makes of a text that is not all ASCII before reading it:
    white space becomes a blank and a decimal digit of any script the
    ASCII digit of the same value; the first other character outside
    ASCII becomes a question mark and ends the text. *)
Fixpoint transform_decimal_and_space (s : str) : str :=
  match s with
  | [] => []
  | c :: s' =>
      if (c <? 127)%N then c :: transform_decimal_and_space s'
      else if isspace c then 32%N :: transform_decimal_and_space s'
      else match unicode_decimal c with
           | Some d => (48 + d)%N :: transform_decimal_and_space s'
           | None => [63%N]
           end
  end.

(** [float(s)] for a [str]. *)
Definition float_of_str (s : str) : exn + float :=
  let s1 := if forallb (fun c => c <? 128)%N s then s
            else transform_decimal_and_space s in
  match strip_underscores 0%N s1 with
  | None => inl ValueError
  | Some s2 =>
      let s3 := rev (lstrip_c (rev (lstrip_c s2))) in
      match parse_float_literal s3 with
      | Some f => inr f
      | None => inl ValueError
      end
  end.

(** [float(x)] *)
Definition py_float (x : pyobj) : exn + float :=
  match x with
  | PyFloat f => inr f
  | PyInt z => float_of_int z
  | PyBool b => inr (if b then 1%float else 0%float)
  | PyStr s => float_of_str s
  | PyNone | PyList _ | PyDict _ => inl TypeError
  end.

(** [iter(x)], as a [for] clause consumes it. *)
Definition py_iter (x : pyobj) : exn + list pyobj :=
  match x with
  | PyList l => inr l
  | PyDict d => inr (map (fun kv => PyStr (fst kv)) d)
  | PyStr s => inr (map (fun c => PyStr [c]) s)
  | PyNone | PyBool _ | PyInt _ | PyFloat _ => inl TypeError
  end.

(** [x[key]] for a [str] key. *)
Definition getitem_key (x : pyobj) (key : str) : exn + pyobj :=
  match x with
  | PyDict d => match dict_get key d with Some v => inr v | None => inl KeyError end
  | _ => inl TypeError
  end.

(** [x[0]] *)
Definition getitem_0 (x : pyobj) : exn + pyobj :=
  match x with
  | PyList (v :: _) => inr v
  | PyList [] => inl IndexError
  | PyStr (c :: _) => inr (PyStr [c])
  | PyStr [] => inl IndexError
  | PyDict _ => inl KeyError
  | PyNone | PyBool _ | PyInt _ | PyFloat _ => inl TypeError
  end.

(** [[f(x) for x in l]]: the first exception ends the comprehension. *)
Fixpoint map_exn {A B : Type} (f : A -> exn + B) (l : list A) : exn + list B :=
  match l with
  | [] => inr []
  | x :: l' => y <- f x ;; ys <- map_exn f l' ;; inr (y :: ys)
  end.

(** ** The pydantic models (server.py 66-70, 117-126) *)

(** What pydantic's lax mode makes of a string or a boolean given for a
    [float] field; [None] is a validation error. *)
Class PydanticLax := {
  str_as_float : str -> option float;
  bool_as_float : bool -> option float
}.

(** [None] stands for Python's [None]; the default [1] of [quantity] is
    kept as the float it compares equal to. *)
Record LineItem := mkLineItem {
  description : str;
  quantity : option float;
  unit_price : option float;
  total : option float
}.

Record ReceiptScanResult := mkResult {
  vendor : str;
  date : str;
  amount : float;
  currency : str;
  category : str;
  payment_method : option str;
  receipt_number : option str;
  line_items : list LineItem;
  confidence_score : float
}.

(** A [str] field. *)
Definition validate_str (x : pyobj) : option str :=
  match x with
  | PyStr s => Some s
  | _ => None
  end.

(** An [Optional[str]] field. *)
Definition validate_optional_str (x : pyobj) : option (option str) :=
  match x with
  | PyNone => Some None
  | PyStr s => Some (Some s)
  | _ => None
  end.

Section Models.
Context {lax : PydanticLax}.

(** An [Optional[float]] field. *)
Definition validate_optional_float (x : pyobj) : option (option float) :=
  match x with
  | PyNone => Some None
  | PyFloat f => Some (Some f)
  | PyInt z =>
      match float_of_int z with
      | inr f => Some (Some f)
      | inl _ => None
      end
  | PyStr s => option_map Some (str_as_float s)
  | PyBool b => option_map Some (bool_as_float b)
  | PyList _ | PyDict _ => None
  end.

(** A field with a default: the default is taken as it is when the key
    is missing. *)
Definition field_or {A : Type} (validate : pyobj -> option A) (default : A)
           (x : option pyobj) : option A :=
  match x with
  | Some v => validate v
  | None => Some default
  end.

(** [LineItem] called with the entries of [item] as keyword arguments;
    keys that are not fields are ignored. *)
Definition LineItem_init (item : pyobj) : exn + LineItem :=
  match item with
  | PyDict kw =>
      match
        match dict_get (lit "description") kw with
        | Some v => validate_str v
        | None => None
        end,
        field_or validate_optional_float (Some 1%float)
                 (dict_get (lit "quantity") kw),
        field_or validate_optional_float None (dict_get (lit "unit_price") kw),
        field_or validate_optional_float None (dict_get (lit "total") kw)
      with
      | Some d, Some q, Some u, Some t => inr (mkLineItem d q u t)
      | _, _, _, _ => inl ValidationError
      end
  | _ => inl TypeError
  end.

(** [ReceiptScanResult(vendor=..., ...)], called with floats for
    [amount] and [confidence_score] and [LineItem]s for [line_items]. *)
Definition ReceiptScanResult_init
           (vendor date : pyobj) (amount : float) (currency category : pyobj)
           (payment_method receipt_number : pyobj)
           (line_items : list LineItem) (confidence_score : float)
  : exn + ReceiptScanResult :=
  match validate_str vendor, validate_str date, validate_str currency,
        validate_str category, validate_optional_str payment_method,
        validate_optional_str receipt_number with
  | Some v, Some d, Some cu, Some ca, Some pm, Some rn =>
      inr (mkResult v d amount cu ca pm rn line_items confidence_score)
  | _, _, _, _, _, _ => inl ValidationError
  end.
End Models.

(** ** The taxonomy (server.py 275-286) *)

Definition CATEGORIES : list str :=
  [ lit "Meals & Dining";
    lit "Travel";
    lit "Office Supplies";
    lit "Equipment";
    lit "Software & Subscriptions";
    lit "Utilities";
    lit "Marketing";
    lit "Professional Services";
    lit "Transportation";
    lit "Other" ].

(** ** Parsing the provider's text (server.py 414-441) *)

Definition fence : str := lit "```".
Definition fence_json : str := lit "```json".

(** [l[i]] *)
Definition index {A : Type} (l : list A) (i : nat) : exn + A :=
  match nth_error l i with
  | Some x => inr x
  | None => inl IndexError
  end.

(** Lines 414-418. *)
Definition clean_response (response_text : str) : exn + str :=
  if contains fence_json response_text then
    t <- index (split fence_json response_text) 1 ;;
    index (split fence t) 0
  else if contains fence response_text then
    t <- index (split fence response_text) 1 ;;
    index (split fence t) 0
  else inr response_text.

Section Parser.
Context {lax : PydanticLax}.

(** The clock: [datetime.now().strftime("%Y-%m-%d")]. *)
Variable today : str.

(** Lines 422-432, on the value of [json.loads]. *)
Definition build_result (result : pyobj) : exn + ReceiptScanResult :=
  match result with
  | PyDict d =>
      let vendor := dict_get_default (lit "vendor") (PyStr (lit "Unknown")) d in
      let date := dict_get_default (lit "date") (PyStr today) d in
      amount <- py_float (dict_get_default (lit "amount") (PyInt 0) d) ;;
      let currency := dict_get_default (lit "currency") (PyStr (lit "USD")) d in
      let category := dict_get_default (lit "category") (PyStr (lit "Other")) d in
      let payment_method := dict_get_default (lit "payment_method") PyNone d in
      let receipt_number := dict_get_default (lit "receipt_number") PyNone d in
      items <- py_iter (dict_get_default (lit "line_items") (PyList []) d) ;;
      line_items <- map_exn LineItem_init items ;;
      confidence_score <-
        py_float (dict_get_default (lit "confidence_score") (PyFloat 0.5) d) ;;
      ReceiptScanResult_init vendor date amount currency category
                             payment_method receipt_number
                             line_items confidence_score
  | _ => inl AttributeError
  end.

(** Lines 414-432 without the handlers. *)
Definition parse_text (response_text : str) : exn + ReceiptScanResult :=
  cleaned <- clean_response response_text ;;
  result <- json_loads (strip cleaned) ;;
  build_result result.

(** The [except] clauses of lines 434-441. *)
Definition handle {A : Type} (c : exn + A) : HTTPException + A :=
  match c with
  | inr a => inr a
  | inl JSONDecodeError => inl (mkHTTP 500 FailedToParseAIResponse)
  | inl e => inl (mkHTTP 500 (FailedToScanReceipt e))
  end.

(** Lines 414-441: from the provider's text to the response. *)
Definition parse_response (response_text : str)
  : HTTPException + ReceiptScanResult :=
  handle (parse_text response_text).
End Parser.

(** ** The provider call and the endpoint (server.py 288-441) *)

(** The reply to the POST: its status, whether its content type is JSON,
    and what [api_response.json()] gives. *)
Record api_response := mkResponse {
  resp_status : Z;
  resp_is_json : bool;
  resp_json : exn + pyobj
}.

(** The provider, as seen through [http_client.post]: it receives the
    image (sent base64-encoded) and its media type. *)
Class Provider := {
  post_messages : bytes -> str -> exn + api_response
}.

(** The operations applied to [response_text] need a [str]. *)
Definition as_text (x : pyobj) : exn + str :=
  match x with
  | PyStr s => inr s
  | PyList _ | PyDict _ => inl AttributeError
  | PyNone | PyBool _ | PyInt _ | PyFloat _ => inl TypeError
  end.

Section Endpoint.
Context {pil : PIL} {provider : Provider} {lax : PydanticLax}.
Variable today : str.

Definition scan_receipt (file : UploadFile) : HTTPException + ReceiptScanResult :=
  match fst (normalize_image file) with
  | inl h => inl h
  | inr (content, detected_type) =>
      match post_messages content detected_type with
      | inl e => handle (inl e)
      | inr api =>
          if negb (resp_status api =? 200) then
            match (if resp_is_json api then resp_json api else inr PyNone) with
            | inl e => handle (inl e)
            | inr _ => inl (mkHTTP 500 (AIServiceError (resp_status api)))
            end
          else
            handle (response_data <- resp_json api ;;
                    blocks <- getitem_key response_data (lit "content") ;;
                    block <- getitem_0 blocks ;;
                    text <- getitem_key block (lit "text") ;;
                    response_text <- as_text text ;;
                    parse_text today response_text)
      end
  end.
End Endpoint.

(** A provider that answers every request with one text block. *)
Definition stub_provider (text : str) : Provider := {|
  post_messages := fun _ _ =>
    inr (mkResponse 200 true
           (inr (PyDict [(lit "content",
                          PyList [PyDict [(lit "type", PyStr (lit "text"));
                                          (lit "text", PyStr text)]])])))
|}.

(** Lax coercions for running the models: numeric strings are read as
    [float] reads them, booleans are refused. *)
Definition default_lax : PydanticLax := {|
  str_as_float := fun s =>
    match float_of_str s with inr f => Some f | inl _ => None end;
  bool_as_float := fun _ => None
|}.

(** A literal in which the apostrophe stands for the double quote of
    JSON. *)
Definition json_lit (s : string) : str :=
  map (fun c => if (c =? 39)%N then dquote else c) (lit s).

(** ** Vocabulary of the specification *)

(** [content] starts with the signature [sig]. *)
Definition has_prefix (sig content : bytes) : Prop :=
  exists rest, content = sig ++ rest.

(** [content] carries the [RIFF]....[WEBP] markers. *)
Definition has_webp_markers (content : bytes) : Prop :=
  exists size rest,
    length size = 4%nat /\ content = riff_marker ++ size ++ webp_marker ++ rest.

(** The JSON value that the parser reads from the provider's text:
    what [json.loads] makes of the stripped text that the fence cut of
    lines 415-418 leaves.  It is the provider's own value when the text
    holds no run of three backticks (lemma [provider_json_direct]); a text
    with backticks inside a JSON string is cut there too. *)
Definition provider_json (response_text : str) (v : pyobj) : Prop :=
  exists cleaned,
    clean_response response_text = inr cleaned /\ json_loads (strip cleaned) = inr v.

(** The failure of the parsing stage, as the endpoint reports it. *)
Definition MalformedResponse (h : HTTPException) : Prop :=
  status_code h = 500 /\
  (http_detail h = FailedToParseAIResponse \/
   exists e, http_detail h = FailedToScanReceipt e).

(** [0 <= x <= 1] *)
Definition in_unit_interval (x : float) : bool :=
  (PrimFloat.leb 0 x && PrimFloat.leb x 1)%bool.

(** An element of [line_items] that [LineItem] accepts. *)
Definition conforms_to_LineItem {lax : PydanticLax} (item : pyobj) : Prop :=
  exists li, LineItem_init item = inr li.

(** One level of Markdown fencing around [t]. *)
Definition newline : N := 10%N.
Definition fenced_json (t : str) : str := fence_json ++ newline :: t ++ newline :: fence.
Definition fenced_bare (t : str) : str := fence ++ newline :: t ++ newline :: fence.

(** Agreement of two objects on a list of keys. *)
Definition agree_on (keys : list str) (d1 d2 : dict) : Prop :=
  Forall (fun k => dict_get k d1 = dict_get k d2) keys.

Definition scalar_fields : list str :=
  [ lit "vendor"; lit "date"; lit "amount"; lit "currency"; lit "category";
    lit "payment_method"; lit "receipt_number"; lit "confidence_score" ].

Definition item_fields : list str :=
  [ lit "description"; lit "quantity"; lit "unit_price"; lit "total" ].

(** Two line items that agree on the four item fields. *)
Inductive same_item : pyobj -> pyobj -> Prop :=
| same_item_dict (kw1 kw2 : dict) :
    agree_on item_fields kw1 kw2 -> same_item (PyDict kw1) (PyDict kw2)
| same_item_refl (x : pyobj) : same_item x x.

(** Two objects that agree on the nine schema fields. *)
Definition same_schema (d1 d2 : dict) : Prop :=
  agree_on scalar_fields d1 d2 /\
  match dict_get (lit "line_items") d1, dict_get (lit "line_items") d2 with
  | Some (PyList l1), Some (PyList l2) => Forall2 same_item l1 l2
  | x1, x2 => x1 = x2
  end.

(** ** Dumping the models *)

(** [model_dump()] of an optional float. *)
Definition dump_optional_float (x : option float) : pyobj :=
  match x with
  | Some f => PyFloat f
  | None => PyNone
  end.

(** [model_dump()] of an optional text. *)
Definition dump_optional_str (x : option str) : pyobj :=
  match x with
  | Some s => PyStr s
  | None => PyNone
  end.

(** [LineItem.model_dump()] *)
Definition LineItem_dump (li : LineItem) : pyobj :=
  PyDict [ (lit "description", PyStr (description li));
           (lit "quantity", dump_optional_float (quantity li));
           (lit "unit_price", dump_optional_float (unit_price li));
           (lit "total", dump_optional_float (total li)) ].

(** [ReceiptScanResult.model_dump()]: the object sent back to the
    client. *)
Definition ReceiptScanResult_dump (r : ReceiptScanResult) : dict :=
  [ (lit "vendor", PyStr (vendor r));
    (lit "date", PyStr (date r));
    (lit "amount", PyFloat (amount r));
    (lit "currency", PyStr (currency r));
    (lit "category", PyStr (category r));
    (lit "payment_method", dump_optional_str (payment_method r));
    (lit "receipt_number", dump_optional_str (receipt_number r));
    (lit "line_items", PyList (map LineItem_dump (line_items r)));
    (lit "confidence_score", PyFloat (confidence_score r)) ].

(** ** Ordering and sorting *)

From Stdlib Require Import Permutation Sorted.

(** [a < b] on [str]: the first code point that differs decides, and a
    proper prefix comes first. *)
Fixpoint str_ltb (a b : str) : bool :=
  match a, b with
  | [], [] => false
  | [], _ :: _ => true
  | _ :: _, [] => false
  | x :: a', y :: b' =>
      if (x <? y)%N then true
      else if (x =? y)%N then str_ltb a' b'
      else false
  end.

(** [sorted(l)], with [lt x y] for the comparison [x < y] of two
    elements: a stable sort, written as an insertion sort.  The
    interpreter's merge sort gives the same list whenever [<] is a strict
    weak order on the elements. *)
Fixpoint insert_by {A : Type} (lt : A -> A -> bool) (x : A) (l : list A) : list A :=
  match l with
  | [] => [x]
  | y :: l' => if lt y x then y :: insert_by lt x l' else x :: l
  end.

Fixpoint sorted_by {A : Type} (lt : A -> A -> bool) (l : list A) : list A :=
  match l with
  | [] => []
  | x :: l' => insert_by lt x (sorted_by lt l')
  end.

(** [(k1, v1) < (k2, v2)] on pairs of a text and a float: the first
    components decide unless they are equal. *)
Definition pair_ltb (x y : str * float) : bool :=
  if eqb_str (fst x) (fst y)
  then if PrimFloat.eqb (snd x) (snd y) then false
       else PrimFloat.ltb (snd x) (snd y)
  else str_ltb (fst x) (fst y).

(** The comparison of [sorted(items, key=lambda x: -x[1])]. *)
Definition by_amount_desc (x y : str * float) : bool :=
  PrimFloat.ltb (PrimFloat.opp (snd x)) (PrimFloat.opp (snd y)).

(** ** Stored expenses *)

(** A document of the expenses collection, as [find] returns it.  A
    field holds the type the [Expense] model gives it, since documents are
    only written through [ExpenseCreate] and [ExpenseUpdate]; [None]
    stands for a key the document does not have.  Only the fields read by
    the analytics and the tag listing are kept. *)
Record expense_doc := mkDoc {
  doc_vendor : option str;
  doc_date : option str;
  doc_amount : option float;
  doc_category : option str;
  doc_tags : option (list str)
}.

(** [e[key]] *)
Definition required {A : Type} (field : option A) : exn + A :=
  match field with
  | Some x => inr x
  | None => inl KeyError
  end.

(** [e.get(key, default)] *)
Definition get_or {A : Type} (field : option A) (default : A) : A :=
  match field with
  | Some x => x
  | None => default
  end.

(** ** Tags (server.py 827-839) *)

(** [all_tags.update(tags)] on a set kept as a list without repetition. *)
Fixpoint set_update (all_tags tags : list str) : list str :=
  match tags with
  | [] => all_tags
  | t :: tags' =>
      set_update (if existsb (eqb_str t) all_tags then all_tags
                  else all_tags ++ [t]) tags'
  end.

(** Lines 835-839, on the documents found.  The order in which a set
    lists its elements does not show in the result, since the elements are
    sorted. *)
Definition get_tags (expenses : list expense_doc) : list str :=
  let all_tags :=
    fold_left (fun all_tags e => set_update all_tags (get_or (doc_tags e) []))
              expenses [] in
  sorted_by str_ltb all_tags.

(** ** Analytics (server.py 626-670) *)

(** The builtin [sum] on a non-empty sequence of floats (with its start
    value, the integer 0): additions from left to right, compensated or
    not according to the version of the interpreter. *)
Class Builtins := {
  sum_floats : list float -> float
}.

(** [totals[k] = totals.get(k, 0) + a] on a dict kept in insertion
    order. *)
Fixpoint totals_add (k : str) (a : float) (totals : list (str * float))
  : list (str * float) :=
  match totals with
  | [] => [(k, PrimFloat.add 0 a)]
  | (k', v) :: totals' =>
      if eqb_str k' k then (k', PrimFloat.add v a) :: totals'
      else (k', v) :: totals_add k a totals'
  end.

(** One round of an accumulation loop: [key] reads the grouping key of
    the expense, then its amount is added. *)
Definition loop_step (key : expense_doc -> exn + str)
           (acc : exn + list (str * float)) (e : expense_doc)
  : exn + list (str * float) :=
  totals <- acc ;;
  k <- key e ;;
  a <- required (doc_amount e) ;;
  inr (totals_add k a totals).

(** One of the three accumulation loops. *)
Definition accumulate (key : expense_doc -> exn + str)
           (expenses : list expense_doc) : exn + list (str * float) :=
  fold_left (loop_step key) expenses (inr []).

Definition category_key (e : expense_doc) : exn + str :=
  inr (get_or (doc_category e) (lit "Other")).

Definition vendor_key (e : expense_doc) : exn + str :=
  inr (get_or (doc_vendor e) (lit "Unknown")).

(** [e["date"][:7]] *)
Definition month_key (e : expense_doc) : exn + str :=
  d <- required (doc_date e) ;; inr (firstn 7 d).

Record category_entry := mkEntry {
  entry_category : str;
  entry_amount : float;
  entry_percentage : pyobj
}.

(** The summary; the numbers that are the integer 0 in one branch and a
    float in the other are kept as Python numbers. *)
Record analytics_summary := mkSummary {
  total_expenses : pyobj;
  expense_count : Z;
  average_expense : pyobj;
  category_breakdown : list category_entry;
  top_vendors : list (str * float);
  monthly_trend : list (str * float)
}.

(** The float nearest to an integer. *)
Definition float_of_Z (z : Z) : float :=
  SF2Prim (binary_normalize prec emax z 0 false).

Section Analytics.
Context {builtins : Builtins}.

(** Lines 616-670, on the documents found. *)
Definition get_analytics_summary (expenses : list expense_doc)
  : exn + analytics_summary :=
  match expenses with
  | [] => inr (mkSummary (PyInt 0) 0 (PyInt 0) [] [] [])
  | _ :: _ =>
      amounts <- map_exn (fun e => required (doc_amount e)) expenses ;;
      let total := sum_floats amounts in
      let count := Z.of_nat (length expenses) in
      category_totals <- accumulate category_key expenses ;;
      let category_breakdown :=
        map (fun kv =>
               mkEntry (fst kv) (snd kv)
                       (if PrimFloat.ltb 0 total
                        then PyFloat (PrimFloat.mul (PrimFloat.div (snd kv) total) 100)
                        else PyInt 0))
            (sorted_by by_amount_desc category_totals) in
      vendor_totals <- accumulate vendor_key expenses ;;
      let top_vendors := firstn 10 (sorted_by by_amount_desc vendor_totals) in
      monthly_totals <- accumulate month_key expenses ;;
      let monthly_trend := sorted_by pair_ltb monthly_totals in
      inr (mkSummary (PyFloat total) count
                     (if 0 <? count
                      then PyFloat (PrimFloat.div total (float_of_Z count))
                      else PyInt 0)
                     category_breakdown top_vendors monthly_trend)
  end.
End Analytics.

(** The plain sum, for running the analytics. *)
Definition plain_sum : Builtins := {|
  sum_floats := fun xs => fold_left PrimFloat.add xs 0%float
|}.

(** The amounts of the expenses whose grouping key is [k], in the order
    of the list. *)
Definition group_amounts (key : expense_doc -> exn + str) (k : str)
           (expenses : list expense_doc) : list float :=
  flat_map (fun e =>
              match key e, doc_amount e with
              | inr k', Some a => if eqb_str k' k then [a] else []
              | _, _ => []
              end)
           expenses.

(** [totals.get(k)] *)
Fixpoint totals_get (k : str) (totals : list (str * float)) : option float :=
  match totals with
  | [] => None
  | (k', v) :: totals' => if eqb_str k' k then Some v else totals_get k totals'
  end.

(** ** Failures of the other endpoints *)

(** What a request handler ends with when it does not return: an
    [HTTPException] with its status and detail, or an exception that
    nothing catches. *)
Inductive failure :=
| HTTP (status : Z) (detail_text : str)
| Uncaught (e : exn).

(** An exception raised outside of any [try]. *)
Definition uncaught {A : Type} (c : exn + A) : failure + A :=
  match c with
  | inl e => inl (Uncaught e)
  | inr a => inr a
  end.

(** [bool(s)] for an optional text: neither [None] nor empty. *)
Definition truthy (s : option str) : bool :=
  match s with
  | Some (_ :: _) => true
  | Some [] | None => false
  end.

(** ** Upload (server.py 443-461) *)

Definition b64_alphabet : str :=
  lit "ABCDEFGHIJKLMNOPQRSTUVWXYZabcdefghijklmnopqrstuvwxyz0123456789+/".

Definition b64_char (i : N) : N := nth (N.to_nat i) b64_alphabet 0%N.

Definition b64_pad : N := 61%N.

(** [base64.b64encode(content).decode("utf-8")]: three bytes give four
    characters, and a last group of one or two bytes is padded. *)
Fixpoint b64encode (content : bytes) : str :=
  match content with
  | [] => []
  | [a] =>
      let a := Byte.to_N a in
      [b64_char (a / 4)%N; b64_char (a mod 4 * 16)%N; b64_pad; b64_pad]
  | [a; b] =>
      let a := Byte.to_N a in
      let b := Byte.to_N b in
      [b64_char (a / 4)%N; b64_char (a mod 4 * 16 + b / 16)%N;
       b64_char (b mod 16 * 4)%N; b64_pad]
  | a :: b :: c :: rest =>
      let a := Byte.to_N a in
      let b := Byte.to_N b in
      let c := Byte.to_N c in
      b64_char (a / 4)%N :: b64_char (a mod 4 * 16 + b / 16)%N
        :: b64_char (b mod 16 * 4 + c / 64)%N :: b64_char (c mod 64)%N
        :: b64encode rest
  end.

Record upload_result := mkUploaded {
  image_data : str;
  uploaded_content_type : str
}.

Definition upload_receipt_image (file : UploadFile) : failure + upload_result :=
  let content := file_content file in
  let content_type :=
    if truthy (content_type file) then get_or (content_type file) image_jpeg
    else image_jpeg in
  if negb (existsb (eqb_str content_type)
                   [image_jpeg; image_png; image_webp; application_pdf])
  then inl (HTTP 400 (lit "Unsupported file type"))
  else
    let image_base64 := b64encode content in
    inr (mkUploaded (lit "data:" ++ content_type ++ lit ";base64," ++ image_base64)
                    content_type).

(** ** Authentication (server.py 137-176) *)

(** What [get_current_user] reads of a request. *)
Record Request := mkRequest {
  (** [request.cookies.get("session_token")] *)
  cookie_session_token : option str;
  (** [request.headers.get("Authorization")] *)
  header_authorization : option str
}.

(** A [datetime]: its wall clock in microseconds, and the offset of its
    time zone from UTC; [None] is a datetime without [tzinfo]. *)
Record datetime := mkDatetime {
  wall_clock : Z;
  utcoffset : option Z
}.

(** [d.replace(tzinfo=timezone.utc)] *)
Definition replace_tzinfo_utc (d : datetime) : datetime :=
  mkDatetime (wall_clock d) (Some 0).

(** [d < now] for a [d] with a time zone and the current instant [now],
    which is in UTC. *)
Definition before (d : datetime) (now : Z) : bool :=
  wall_clock d - get_or (utcoffset d) 0 <? now.

(** A value found under [expires_at]. *)
Inductive stored :=
| StoredStr (s : str)
| StoredDatetime (d : datetime)
| StoredOther.

(** A document of the sessions collection; [None] stands for a key the
    document does not have. *)
Record session_doc := mkSession {
  session_expires_at : option stored;
  session_user_id : option pyobj
}.

(** The database, [datetime.fromisoformat] and the validation of the
    [User] model. *)
Class AuthStore := {
  user_doc : Type;
  User : Type;
  (** [db.user_sessions.find_one({"session_token": token}, {"_id": 0})] *)
  find_session : str -> exn + option session_doc;
  (** [db.users.find_one({"user_id": user_id}, {"_id": 0})] *)
  find_user : pyobj -> exn + option user_doc;
  fromisoformat : str -> exn + datetime;
  (** [User] built from the keys of the document *)
  User_init : user_doc -> exn + User
}.

Definition space : str := lit " ".
Definition bearer : str := lit "Bearer ".

Section Auth.
Context {store : AuthStore}.
(** [datetime.now(timezone.utc)], in microseconds. *)
Variable now : Z.

(** Lines 139-144: the token the request carries, if any. *)
Definition request_token (request : Request) : failure + option str :=
  let session_token := cookie_session_token request in
  if negb (truthy session_token) then
    let auth_header := header_authorization request in
    if truthy auth_header
       && startswith (lit "Bearer ") (get_or auth_header [])
    then
      token <- uncaught (index (split (lit " ") (get_or auth_header [])) 1) ;;
      inr (Some token)
    else inr session_token
  else inr session_token.

(** Lines 149-176: from the token to the user. *)
Definition user_of_token (session_token : str) : failure + User :=
  found <- uncaught (find_session session_token) ;;
  match found with
  | None => inl (HTTP 401 (lit "Invalid session"))
  | Some session =>
      expires_at <- uncaught (required (session_expires_at session)) ;;
      expires_at <- uncaught
                      match expires_at with
                      | StoredStr s => fromisoformat s
                      | StoredDatetime d => inr d
                      | StoredOther => inl AttributeError
                      end ;;
      let expires_at :=
        match utcoffset expires_at with
        | None => replace_tzinfo_utc expires_at
        | Some _ => expires_at
        end in
      if before expires_at now
      then inl (HTTP 401 (lit "Session expired"))
      else
        user_id <- uncaught (required (session_user_id session)) ;;
        found <- uncaught (find_user user_id) ;;
        match found with
        | None => inl (HTTP 401 (lit "User not found"))
        | Some doc => uncaught (User_init doc)
        end
  end.

Definition get_current_user (request : Request) : failure + User :=
  session_token <- request_token request ;;
  if negb (truthy session_token)
  then inl (HTTP 401 (lit "Not authenticated"))
  else user_of_token (get_or session_token []).
End Auth.

(** A store with one session and one user, for running the
    authentication; a text is an ISO date when it is a number of
    microseconds in decimal digits, read as a datetime without time zone. *)
Definition toy_store (token : str) (expires_at : stored) : AuthStore := {|
  user_doc := str;
  User := str;
  find_session := fun t =>
    inr (if eqb_str t token
         then Some (mkSession (Some expires_at) (Some (PyStr (lit "user_1"))))
         else None);
  find_user := fun id =>
    inr (match id with
         | PyStr s => if eqb_str s (lit "user_1") then Some (lit "Ada") else None
         | _ => None
         end);
  fromisoformat := fun s =>
    match s with
    | [] => inl ValueError
    | _ :: _ => if forallb is_digit s
                then inr (mkDatetime (digits_value s) None)
                else inl ValueError
    end;
  User_init := fun doc => inr doc
|}.

(** * Properties *)

(** ** Equality tests *)

Lemma eqb_str_eq (a b : str) : eqb_str a b = true <-> a = b.
Proof.
  revert b; induction a as [|x a IH]; intros [|y b]; simpl; split;
    try easy.
  - intros H. apply andb_true_iff in H as [Hx Ha].
    apply N.eqb_eq in Hx. apply IH in Ha. now subst.
  - intros H. injection H as -> ->. rewrite N.eqb_refl. now apply IH.
Qed.

Lemma eqb_str_refl (a : str) : eqb_str a a = true.
Proof. now apply eqb_str_eq. Qed.

Lemma eqb_bytes_eq (a b : bytes) : eqb_bytes a b = true <-> a = b.
Proof.
  revert b; induction a as [|x a IH]; intros [|y b]; simpl; split;
    try easy.
  - intros H. apply andb_true_iff in H as [Hx Ha].
    apply Byte.byte_dec_bl in Hx. apply IH in Ha. now subst.
  - intros H. injection H as -> ->.
    rewrite Byte.byte_dec_lb by reflexivity. now apply IH.
Qed.

(** ** Byte signatures *)

Lemma slice_prefix (n : nat) (sig content : bytes) :
  eqb_bytes (slice 0 n content) sig = true -> has_prefix sig content.
Proof.
  intros H. apply eqb_bytes_eq in H. unfold slice in H. simpl in H.
  exists (skipn (n - 0) content). rewrite <- H. symmetry. apply firstn_skipn.
Qed.

Lemma slices_webp (content : bytes) :
  eqb_bytes (slice 0 4 content) riff_marker = true ->
  eqb_bytes (slice 8 12 content) webp_marker = true ->
  has_webp_markers content.
Proof.
  intros H1 H2. apply eqb_bytes_eq in H1, H2. unfold slice in *.
  destruct content as [|b0 [|b1 [|b2 [|b3 [|b4 [|b5 [|b6 [|b7 tl]]]]]]]];
    try discriminate.
  exists [b4; b5; b6; b7], (skipn 4 tl). split; [reflexivity|].
  injection H1 as -> -> -> ->.
  change (firstn 4 tl = webp_marker) in H2.
  rewrite <- (firstn_skipn 4 tl) at 1. rewrite H2. reflexivity.
Qed.

(** C6.  Sniffing by byte signature: a payload that starts with the PNG
    signature is detected as PNG, one that starts with the JPEG signature
    as JPEG, one that carries the RIFF....WEBP markers as WEBP; a payload
    that starts with %PDF is detected as PDF and its normalisation fails
    with the 400 "PDF not supported" error; every other payload is
    detected as JPEG.  The content type announced by the client plays no
    part. *)
Theorem detect_type_by_signature {pil : PIL} (file : UploadFile) :
  let content := file_content file in
  (has_prefix png_signature content -> detect_type content = image_png) /\
  (has_prefix jpeg_signature content -> detect_type content = image_jpeg) /\
  (has_webp_markers content -> detect_type content = image_webp) /\
  (has_prefix pdf_signature content ->
   detect_type content = application_pdf /\
   normalize_image file = (inl (mkHTTP 400 PdfNotSupported), [])) /\
  (~ has_prefix png_signature content ->
   ~ has_prefix jpeg_signature content ->
   ~ has_webp_markers content ->
   ~ has_prefix pdf_signature content ->
   detect_type content = image_jpeg).
Proof.
  intros content. split; [|split; [|split; [|split]]].
  - intros [rest ->]. reflexivity.
  - intros [rest ->]. reflexivity.
  - intros (size & rest & Hlen & ->).
    destruct size as [|s0 [|s1 [|s2 [|s3 [|s4 size]]]]]; try discriminate.
    reflexivity.
  - intros [rest Hc]. split.
    + rewrite Hc. reflexivity.
    + unfold normalize_image. fold content. rewrite Hc. reflexivity.
  - intros Hpng Hjpeg Hwebp Hpdf. unfold detect_type.
    destruct (eqb_bytes (slice 0 8 content) png_signature) eqn:E1.
    { exfalso. eauto using slice_prefix. }
    destruct (eqb_bytes (slice 0 2 content) jpeg_signature) eqn:E2.
    { reflexivity. }
    destruct (eqb_bytes (slice 0 4 content) riff_marker) eqn:E3;
      destruct (eqb_bytes (slice 8 12 content) webp_marker) eqn:E4; simpl;
      try (exfalso; eauto using slices_webp; fail);
      (destruct (eqb_bytes (slice 0 4 content) pdf_signature) eqn:E5;
       [exfalso; eauto using slice_prefix | reflexivity]).
Qed.

(** The five cases of C6 on concrete payloads, with two different
    announced content types. *)
Lemma detect_type_by_signature_witness :
  detect_type (png_signature ++ [x00]) = image_png /\
  detect_type (jpeg_signature ++ [xff; xe0]) = image_jpeg /\
  detect_type (riff_marker ++ [x1a; x00; x00; x00] ++ webp_marker ++ [x56]) = image_webp /\
  @normalize_image (toy_pil 10 10 (lit "RGB") 8)
     (mkUpload (pdf_signature ++ [x2d; x31]) (Some image_png))
  = (inl (mkHTTP 400 PdfNotSupported), []) /\
  detect_type [x47; x49; x46; x38] = image_jpeg.
Proof.
  pose (P := toy_pil 10 10 (lit "RGB") 8).
  split; [|split; [|split; [|split]]].
  - destruct (@detect_type_by_signature P (mkUpload (png_signature ++ [x00]) None))
      as (H & _).
    apply H. now exists [x00].
  - destruct (@detect_type_by_signature P
                (mkUpload (jpeg_signature ++ [xff; xe0]) None))
      as (_ & H & _).
    apply H. now exists [xff; xe0].
  - destruct (@detect_type_by_signature P
                (mkUpload (riff_marker ++ [x1a; x00; x00; x00] ++ webp_marker ++ [x56])
                          (Some image_jpeg)))
      as (_ & _ & H & _).
    apply H. now exists [x1a; x00; x00; x00], [x56].
  - destruct (@detect_type_by_signature P
                (mkUpload (pdf_signature ++ [x2d; x31]) (Some image_png)))
      as (_ & _ & _ & H & _).
    apply H. now exists [x2d; x31].
  - destruct (@detect_type_by_signature P
                (mkUpload [x47; x49; x46; x38] (Some image_png)))
      as (_ & _ & _ & _ & H).
    apply H.
    + intros [rest E]; discriminate.
    + intros [rest E]; discriminate.
    + intros (size & rest & _ & E); discriminate.
    + intros [rest E]; discriminate.
Defined.

(** ** Re-encoding *)

(** One step of case analysis on a hypothesis that runs the normaliser. *)
Ltac step :=
  match goal with
  | H : inl _ = inr _ |- _ => discriminate H
  | H : inr _ = inl _ |- _ => discriminate H
  | H : (_, _) = (_, _) |- _ => injection H as ? ?; subst
  | H : inr _ = inr _ |- _ => injection H as ?; subst
  | H : context [if ?b then _ else _] |- _ => destruct b eqn:?
  | H : context [match ?x with _ => _ end] |- _ => destruct x eqn:?
  end.

Lemma process_image_encodes {pil : PIL} (content out : bytes) (ty : str)
      (log : list pil_call) :
  process_image content [] = (inr (out, ty), log) ->
  ty = image_jpeg /\
  exists img first,
    save_jpeg img 85 = inr first /\
    ((Z.of_nat (length first) <= size_ceiling /\ out = first /\ encodes log = [85]) \/
     (Z.of_nat (length first) > size_ceiling /\ save_jpeg img 50 = inr out /\
      encodes log = [85; 50])).
Proof.
  unfold process_image, m_bind, call, lift, m_ret. intros H.
  repeat step.
  all: split; [reflexivity|].
  all: match goal with
       | Hs : save_jpeg ?img 85 = inr ?first |- _ => exists img, first
       end; (split; [assumption|]).
  all: match goal with
       | Hc : (_ >? size_ceiling) = true |- _ =>
           right; apply Z.gtb_lt in Hc;
           split; [lia | split; [assumption | reflexivity]]
       | Hc : (_ >? size_ceiling) = false |- _ =>
           left; rewrite Z.gtb_ltb in Hc; apply Z.ltb_ge in Hc;
           split; [lia | split; reflexivity]
       end.
Qed.

(** C7.  Whenever normalisation succeeds, the payload is tagged JPEG and
    is either the first encode, at quality 85, when that has at most 3 MB,
    or else the output of exactly one further encode, at quality 50: the
    encodes performed are [85] or [85; 50], never more. *)
Theorem normalize_two_attempts {pil : PIL} (file : UploadFile)
        (out : bytes) (ty : str) (log : list pil_call) :
  normalize_image file = (inr (out, ty), log) ->
  ty = image_jpeg /\
  exists img first,
    save_jpeg img 85 = inr first /\
    ((Z.of_nat (length first) <= size_ceiling /\ out = first /\ encodes log = [85]) \/
     (Z.of_nat (length first) > size_ceiling /\ save_jpeg img 50 = inr out /\
      encodes log = [85; 50])).
Proof.
  unfold normalize_image.
  destruct (eqb_str (detect_type (file_content file)) application_pdf);
    [discriminate|].
  destruct (process_image (file_content file) []) as [[e|[o t]] l] eqn:E;
    [discriminate|].
  intros H. injection H as -> -> ->. now apply process_image_encodes in E.
Qed.

(** C7 on a 10 by 10 image of the toy library: one encode, taken as it
    is. *)
Lemma normalize_two_attempts_witness :
  let P := toy_pil 10 10 (lit "RGB") 8 in
  @normalize_image P (mkUpload [x00] None)
  = (inr (repeat x00 1062, image_jpeg), [Open; Save 85]) /\
  exists (img : @image P) (first : bytes),
    @save_jpeg P img 85 = inr first /\
    ((Z.of_nat (length first) <= size_ceiling /\ repeat x00 1062 = first /\
      encodes [Open; Save 85] = [85]) \/
     (Z.of_nat (length first) > size_ceiling /\
      @save_jpeg P img 50 = inr (repeat x00 1062) /\
      encodes [Open; Save 85] = [85; 50])).
Proof.
  intros P.
  assert (H : @normalize_image P (mkUpload [x00] None)
              = (inr (repeat x00 1062, image_jpeg), [Open; Save 85]))
    by (vm_compute; reflexivity).
  split; [exact H|].
  exact (proj2 (@normalize_two_attempts P _ _ _ _ H)).
Defined.

(** ** Resizing *)

(** An image whose two dimensions are at most 1500 pixels is encoded at
    its own size: no resize is requested. *)
Lemma small_image_not_resized {pil : PIL} (content : bytes) (img : image) :
  PIL_open content = inr img ->
  mode img = lit "RGB" ->
  width img <= max_dimension ->
  height img <= max_dimension ->
  resizes (snd (process_image content [])) = [].
Proof.
  intros Hopen Hmode Hw Hh.
  unfold process_image, m_bind, call, lift, m_ret.
  rewrite Hopen, Hmode. simpl.
  replace (width img >? max_dimension) with false
    by (symmetry; rewrite Z.gtb_ltb; apply Z.ltb_ge; lia).
  replace (height img >? max_dimension) with false
    by (symmetry; rewrite Z.gtb_ltb; apply Z.ltb_ge; lia).
  simpl.
  destruct (save_jpeg img 85) as [e|b]; [reflexivity|].
  destruct (Z.of_nat (length b) >? size_ceiling); [|reflexivity].
  destruct (save_jpeg img 50); reflexivity.
Qed.

(** C8.  A decodable image of 2147 by 1000 pixels is resized to 1499 by
    698: the product of the width with the rounded ratio falls just below
    1500 and [int] truncates it, so the larger dimension of the output is
    1499 and not 1500.  An image of 3000 by 1 pixels is sent to [resize]
    with a height of 0. *)
Theorem resize_target_truncated :
  new_size 2147 1000 = inr (1499, 698) /\
  resizes (snd (@normalize_image (toy_pil 2147 1000 (lit "RGB") 800)
                                 (mkUpload [x00] None)))
  = [(1499, 698)] /\
  new_size 3000 1 = inr (1500, 0).
Proof. vm_compute. repeat split. Qed.

(** ** From the provider's text to the result *)

Lemma parse_response_of_json {lax : PydanticLax} (today text : str) (v : pyobj) :
  provider_json text v ->
  parse_response today text = handle (build_result today v).
Proof.
  intros (cleaned & Hc & Hj). unfold parse_response, parse_text.
  rewrite Hc. simpl. rewrite Hj. reflexivity.
Qed.

(** With a decodable image and a 200 reply carrying a text block, the
    endpoint returns what the parsing stage makes of that text. *)
Lemma scan_receipt_parse {pil : PIL} {provider : Provider} {lax : PydanticLax}
      (today : str) (file : UploadFile) (content : bytes) (ty : str)
      (json_header : bool) (body : pyobj) (text : str) :
  fst (normalize_image file) = inr (content, ty) ->
  post_messages content ty = inr (mkResponse 200 json_header (inr body)) ->
  (blocks <- getitem_key body (lit "content") ;;
   block <- getitem_0 blocks ;;
   t <- getitem_key block (lit "text") ;;
   as_text t) = inr text ->
  scan_receipt today file = parse_response today text.
Proof.
  intros Hn Hp Ht. unfold scan_receipt, parse_response. rewrite Hn, Hp. simpl.
  unfold bind in *.
  destruct (getitem_key body (lit "content")) as [e|blocks]; [discriminate|].
  destruct (getitem_0 blocks) as [e|block]; [discriminate|].
  destruct (getitem_key block (lit "text")) as [e|t]; [discriminate|].
  rewrite Ht. reflexivity.
Qed.

(** What a successful assembly says of each field. *)
Lemma build_result_inv {lax : PydanticLax} (today : str) (d : dict)
      (r : ReceiptScanResult) :
  build_result today (PyDict d) = inr r ->
  validate_str (dict_get_default (lit "vendor") (PyStr (lit "Unknown")) d)
  = Some (vendor r) /\
  validate_str (dict_get_default (lit "date") (PyStr today) d) = Some (date r) /\
  py_float (dict_get_default (lit "amount") (PyInt 0) d) = inr (amount r) /\
  validate_str (dict_get_default (lit "currency") (PyStr (lit "USD")) d)
  = Some (currency r) /\
  validate_str (dict_get_default (lit "category") (PyStr (lit "Other")) d)
  = Some (category r) /\
  validate_optional_str (dict_get_default (lit "payment_method") PyNone d)
  = Some (payment_method r) /\
  validate_optional_str (dict_get_default (lit "receipt_number") PyNone d)
  = Some (receipt_number r) /\
  (exists items,
      py_iter (dict_get_default (lit "line_items") (PyList []) d) = inr items /\
      map_exn LineItem_init items = inr (line_items r)) /\
  py_float (dict_get_default (lit "confidence_score") (PyFloat 0.5) d)
  = inr (confidence_score r).
Proof.
  unfold build_result, bind, ReceiptScanResult_init. intros H.
  destruct (py_float (dict_get_default (lit "amount") _ d)) as [e|a];
    [discriminate|].
  destruct (py_iter _) as [e|items]; [discriminate|].
  destruct (map_exn LineItem_init items) as [e|lis] eqn:El; [discriminate|].
  destruct (py_float (dict_get_default (lit "confidence_score") _ d)) as [e|c];
    [discriminate|].
  destruct (validate_str (dict_get_default (lit "vendor") _ d)); [|discriminate].
  destruct (validate_str (dict_get_default (lit "date") _ d)); [|discriminate].
  destruct (validate_str (dict_get_default (lit "currency") _ d)); [|discriminate].
  destruct (validate_str (dict_get_default (lit "category") _ d)); [|discriminate].
  destruct (validate_optional_str (dict_get_default (lit "payment_method") _ d));
    [|discriminate].
  destruct (validate_optional_str (dict_get_default (lit "receipt_number") _ d));
    [|discriminate].
  injection H as <-. simpl. repeat split. now exists items.
Qed.

(** The exceptions of the assembly are never those of [json.loads]. *)
Lemma py_float_error (x : pyobj) (e : exn) :
  py_float x = inl e -> e <> JSONDecodeError.
Proof.
  destruct x; simpl; try (intros [= <-]; discriminate).
  - unfold float_of_int. destruct (is_inf _); intros [= <-]; discriminate.
  - unfold float_of_str. destruct (strip_underscores _ _).
    + destruct (parse_float_literal _); intros [= <-]; discriminate.
    + intros [= <-]; discriminate.
Qed.

Lemma LineItem_init_error {lax : PydanticLax} (item : pyobj) (e : exn) :
  LineItem_init item = inl e -> e <> JSONDecodeError.
Proof.
  unfold LineItem_init. destruct item; try (intros [= <-]; discriminate).
  repeat match goal with
         | |- context [match ?x with _ => _ end] => destruct x
         end; intros [= <-]; discriminate.
Qed.

Lemma map_exn_error {A B : Type} (f : A -> exn + B) (l : list A) (e : exn) :
  map_exn f l = inl e -> exists x, In x l /\ f x = inl e.
Proof.
  induction l as [|x l IH]; simpl; [discriminate|].
  unfold bind. destruct (f x) as [e'|y] eqn:E.
  - intros [= <-]. exists x. auto.
  - destruct (map_exn f l) as [e'|ys]; [|discriminate].
    intros [= <-]. destruct IH as (x' & Hin & Hx); [reflexivity|].
    exists x'. auto.
Qed.

Lemma build_result_error {lax : PydanticLax} (today : str) (v : pyobj) (e : exn) :
  build_result today v = inl e -> e <> JSONDecodeError.
Proof.
  unfold build_result. destruct v; try (intros [= <-]; discriminate).
  unfold bind, ReceiptScanResult_init.
  destruct (py_float (dict_get_default (lit "amount") _ d)) as [e1|a] eqn:Ea.
  { intros [= <-]. eapply py_float_error; eauto. }
  destruct (py_iter _) as [e1|items] eqn:Ei.
  { intros [= <-]. destruct (dict_get_default (lit "line_items") _ d);
      simpl in Ei; try discriminate; injection Ei as <-; discriminate. }
  destruct (map_exn LineItem_init items) as [e1|lis] eqn:El.
  { intros [= <-]. apply map_exn_error in El as (x & _ & Hx).
    eapply LineItem_init_error; eauto. }
  destruct (py_float (dict_get_default (lit "confidence_score") _ d))
    as [e1|c] eqn:Ec.
  { intros [= <-]. eapply py_float_error; eauto. }
  repeat match goal with
         | |- context [match ?x with _ => _ end] => destruct x
         end; intros [= <-]; discriminate.
Qed.

Lemma handle_error {A : Type} (e : exn) :
  e <> JSONDecodeError ->
  @handle A (inl e) = inl (mkHTTP 500 (FailedToScanReceipt e)).
Proof. destruct e; intros H; try reflexivity. now contradiction H. Qed.

Lemma dict_get_default_some (k : str) (default x : pyobj) (d : dict) :
  dict_get k d = Some x -> dict_get_default k default d = x.
Proof. unfold dict_get_default. now intros ->. Qed.

Lemma dict_get_default_none (k : str) (default : pyobj) (d : dict) :
  dict_get k d = None -> dict_get_default k default d = default.
Proof. unfold dict_get_default. now intros ->. Qed.

(** ** Defaults *)

(** C5.  The text of an empty JSON object parses to the defaults: vendor
    "Unknown", the current date, amount 0, currency "USD", category
    "Other", no payment method, no receipt number, no line items and a
    confidence score of 0.5. *)
Theorem parse_empty_object {lax : PydanticLax} (today : str) :
  parse_response today (lit "{}")
  = inr {| vendor := lit "Unknown";
           date := today;
           amount := 0%float;
           currency := lit "USD";
           category := lit "Other";
           payment_method := None;
           receipt_number := None;
           line_items := [];
           confidence_score := 0.5%float |}.
Proof. reflexivity. Qed.

Lemma handle_inr {A : Type} (c : exn + A) (a : A) :
  handle c = inr a -> c = inr a.
Proof. destruct c as [e|a']; [destruct e; discriminate | now intros [= ->]]. Qed.

Lemma parse_response_inr {lax : PydanticLax} (today text : str) (d : dict)
      (r : ReceiptScanResult) :
  provider_json text (PyDict d) ->
  parse_response today text = inr r ->
  build_result today (PyDict d) = inr r.
Proof.
  intros Hj H. rewrite (parse_response_of_json today text _ Hj) in H.
  now apply handle_inr.
Qed.

Lemma parse_response_inl {lax : PydanticLax} (today text : str) (d : dict)
      (e : exn) :
  provider_json text (PyDict d) ->
  build_result today (PyDict d) = inl e ->
  parse_response today text = inl (mkHTTP 500 (FailedToScanReceipt e)).
Proof.
  intros Hj H. rewrite (parse_response_of_json today text _ Hj), H.
  apply handle_error. eapply build_result_error; eauto.
Qed.

(** ** Confidence *)

(** C1, as the code has it.  When the JSON object that the parser reads
    from the response carries a confidence_score [x], the result's
    confidence_score is [float(x)], unchanged: nothing brings a value
    below 0 or above 1 back into the unit interval. *)
Theorem confidence_score_unchanged {lax : PydanticLax} (today text : str)
        (d : dict) (x : pyobj) (r : ReceiptScanResult) :
  provider_json text (PyDict d) ->
  dict_get (lit "confidence_score") d = Some x ->
  parse_response today text = inr r ->
  py_float x = inr (confidence_score r) /\
  (forall f, x = PyFloat f -> confidence_score r = f).
Proof.
  intros Hj Hx Hr. apply (parse_response_inr _ _ _ _ Hj) in Hr.
  apply build_result_inv in Hr as (_ & _ & _ & _ & _ & _ & _ & _ & Hc).
  rewrite (dict_get_default_some _ _ _ _ Hx) in Hc. split; [exact Hc|].
  intros f ->. simpl in Hc. now injection Hc.
Qed.

(** C1 on the text of an object whose confidence_score is 2.5. *)
Lemma confidence_score_unchanged_witness :
  let r := {| vendor := lit "Unknown"; date := lit "2024-05-01";
              amount := 0%float; currency := lit "USD"; category := lit "Other";
              payment_method := None; receipt_number := None;
              line_items := []; confidence_score := 2.5%float |} in
  py_float (PyFloat 2.5) = inr (confidence_score r) /\
  (forall f, PyFloat 2.5 = PyFloat f -> confidence_score r = f).
Proof.
  intros r.
  apply (@confidence_score_unchanged default_lax (lit "2024-05-01")
           (json_lit "{'confidence_score': 2.5}")
           [(lit "confidence_score", PyFloat 2.5)]).
  - exists (json_lit "{'confidence_score': 2.5}"). split; reflexivity.
  - reflexivity.
  - reflexivity.
Defined.

(** The claim C1 fails: with a provider that answers -1, or 2.5, the scan
    returns that very confidence_score, outside [0,1]. *)
Lemma confidence_not_clamped :
  let P := toy_pil 10 10 (lit "RGB") 8 in
  let file := mkUpload (jpeg_signature ++ [x00]) (Some image_jpeg) in
  (exists r,
      @scan_receipt P (stub_provider (json_lit "{'confidence_score': -1}"))
                    default_lax (lit "2024-05-01") file = inr r /\
      confidence_score r = (-1)%float /\
      in_unit_interval (confidence_score r) = false) /\
  (exists r,
      @scan_receipt P (stub_provider (json_lit "{'confidence_score': 2.5}"))
                    default_lax (lit "2024-05-01") file = inr r /\
      confidence_score r = 2.5%float /\
      in_unit_interval (confidence_score r) = false).
Proof.
  intros P file.
  split; eexists; (split; [vm_compute; reflexivity | split; reflexivity]).
Qed.

(** ** Categories *)

(** C2, as the code has it.  The category of the result is the text the
    provider gave, whatever it is: each of the ten labels maps to itself,
    and so does any other text.  "Other" is only what a missing key
    yields. *)
Theorem category_unchanged {lax : PydanticLax} (today text : str)
        (d : dict) (r : ReceiptScanResult) :
  provider_json text (PyDict d) ->
  parse_response today text = inr r ->
  match dict_get (lit "category") d with
  | Some x => x = PyStr (category r)
  | None => category r = lit "Other"
  end.
Proof.
  intros Hj Hr. apply (parse_response_inr _ _ _ _ Hj) in Hr.
  apply build_result_inv in Hr as (_ & _ & _ & _ & Hc & _).
  unfold dict_get_default in Hc.
  destruct (dict_get (lit "category") d) as [x|].
  - destruct x; try discriminate. simpl in Hc. now injection Hc as ->.
  - simpl in Hc. now injection Hc.
Qed.

(** C2 on the text of an object whose category is "Travel". *)
Lemma category_unchanged_witness :
  let d := [(lit "category", PyStr (lit "Travel"))] in
  let r := {| vendor := lit "Unknown"; date := lit "2024-05-01";
              amount := 0%float; currency := lit "USD"; category := lit "Travel";
              payment_method := None; receipt_number := None;
              line_items := []; confidence_score := 0.5%float |} in
  match dict_get (lit "category") d with
  | Some x => x = PyStr (category r)
  | None => category r = lit "Other"
  end.
Proof.
  intros d r.
  apply (@category_unchanged default_lax (lit "2024-05-01")
           (json_lit "{'category': 'Travel'}") d r).
  - exists (json_lit "{'category': 'Travel'}"). split; reflexivity.
  - reflexivity.
Defined.

(** The claim C2 fails: the category "Groceries", which is not one of the
    ten labels, comes out as "Groceries" and not as "Other". *)
Lemma category_not_normalized :
  exists r,
    @scan_receipt (toy_pil 10 10 (lit "RGB") 8)
                  (stub_provider (json_lit "{'category': 'Groceries'}"))
                  default_lax (lit "2024-05-01")
                  (mkUpload (jpeg_signature ++ [x00]) (Some image_jpeg)) = inr r /\
    category r = lit "Groceries" /\
    ~ In (category r) CATEGORIES /\
    category r <> lit "Other".
Proof.
  eexists. split; [vm_compute; reflexivity|].
  split; [reflexivity|]. split.
  - simpl. intros H. repeat destruct H as [H|H]; try discriminate H. exact H.
  - discriminate.
Qed.

(** ** Line items *)

Lemma map_exn_fails {A B : Type} (f : A -> exn + B) (l : list A) :
  Exists (fun x => ~ exists y, f x = inr y) l ->
  exists e, map_exn f l = inl e.
Proof.
  induction 1 as [x l Hx | x l _ IH]; simpl; unfold bind.
  - destruct (f x) as [e|y]; [now exists e|]. exfalso. apply Hx. now exists y.
  - destruct (f x) as [e|y]; [now exists e|].
    destruct IH as [e ->]. now exists e.
Qed.

(** A line item without a description does not conform. *)
Lemma missing_description {lax : PydanticLax} (kw : dict) :
  dict_get (lit "description") kw = None -> ~ conforms_to_LineItem (PyDict kw).
Proof.
  intros H [li Hli]. unfold LineItem_init in Hli. rewrite H in Hli. discriminate.
Qed.

(** C3, as the code has it.  When one element of the line_items array
    of the JSON object that the parser reads from the response does not
    conform to LineItem, the whole parse fails with the 500 "failed to
    scan" error: no result is returned, with or without the other line
    items. *)
Theorem malformed_line_item_fails {lax : PydanticLax} (today text : str)
        (d : dict) (items : list pyobj) :
  provider_json text (PyDict d) ->
  dict_get (lit "line_items") d = Some (PyList items) ->
  Exists (fun item => ~ conforms_to_LineItem item) items ->
  exists h,
    parse_response today text = inl h /\
    MalformedResponse h /\
    exists e, h = mkHTTP 500 (FailedToScanReceipt e).
Proof.
  intros Hj Hl Hbad.
  assert (exists e, build_result today (PyDict d) = inl e) as [e He].
  { unfold build_result, bind.
    destruct (py_float (dict_get_default (lit "amount") _ d)) as [e|a];
      [now exists e|].
    rewrite (dict_get_default_some _ _ _ _ Hl). simpl.
    destruct (map_exn_fails LineItem_init items Hbad) as [e ->].
    now exists e. }
  exists (mkHTTP 500 (FailedToScanReceipt e)).
  split; [now apply parse_response_inl with (d := d)|].
  split; [|now exists e].
  split; [reflexivity|]. right. now exists e.
Qed.

(** C3 on an array whose second element has no description. *)
Lemma malformed_line_item_fails_witness :
  exists h,
    @parse_response default_lax (lit "2024-05-01")
      (json_lit "{'line_items': [{'description': 'tea'}, {'total': 3}]}") = inl h /\
    MalformedResponse h /\
    exists e, h = mkHTTP 500 (FailedToScanReceipt e).
Proof.
  apply (@malformed_line_item_fails default_lax (lit "2024-05-01")
           (json_lit "{'line_items': [{'description': 'tea'}, {'total': 3}]}")
           [(lit "line_items",
             PyList [PyDict [(lit "description", PyStr (lit "tea"))];
                     PyDict [(lit "total", PyInt 3)]])]
           [PyDict [(lit "description", PyStr (lit "tea"))];
            PyDict [(lit "total", PyInt 3)]]).
  - eexists. split; reflexivity.
  - reflexivity.
  - apply Exists_cons_tl, Exists_cons_hd.
    apply missing_description. reflexivity.
Defined.

(** The claim C3 fails on a response that holds backticks.  Read as
    JSON, the text below is an object whose line_items array has one
    element, without description, which LineItem rejects; the code cuts
    the text at the backticks, parses the braces between them and returns
    the defaults, with no line item. *)
Lemma malformed_line_item_accepted :
  let t := json_lit "{'line_items': [{'total': 3, 'note': '```{}```'}]}" in
  let today := lit "2024-05-01" in
  (exists item,
      json_loads t = inr (PyDict [(lit "line_items", PyList [item])]) /\
      ~ @conforms_to_LineItem default_lax item) /\
  @parse_response default_lax today t
  = inr {| vendor := lit "Unknown"; date := today; amount := 0%float;
           currency := lit "USD"; category := lit "Other";
           payment_method := None; receipt_number := None;
           line_items := []; confidence_score := 0.5%float |}.
Proof.
  intros t today. split.
  - exists (PyDict [(lit "total", PyInt 3);
                    (lit "note", PyStr (lit "```{}```"))]).
    split; [vm_compute; reflexivity|].
    apply missing_description. reflexivity.
  - vm_compute. reflexivity.
Qed.

(** ** Fields of the wrong shape *)







(** ** Keys outside the schema *)

Lemma bind_assoc {E A B C : Type} (c : E + A) (f : A -> E + B) (k : B -> E + C) :
  (x <- c ;; y <- f x ;; k y) = (y <- (x <- c ;; f x) ;; k y).
Proof. now destruct c. Qed.

Lemma bind_ext {E A B : Type} (c : E + A) (k1 k2 : A -> E + B) :
  (forall x, k1 x = k2 x) -> bind c k1 = bind c k2.
Proof. intros H. destruct c; simpl; [reflexivity | apply H]. Qed.

Lemma LineItem_init_same {lax : PydanticLax} (a b : pyobj) :
  same_item a b -> LineItem_init a = LineItem_init b.
Proof.
  intros [kw1 kw2 H|x]; [|reflexivity].
  unfold agree_on, item_fields in H.
  repeat match goal with
         | F : Forall _ (_ :: _) |- _ => inversion_clear F
         end.
  unfold LineItem_init.
  repeat match goal with
         | E : dict_get ?k kw1 = dict_get ?k kw2 |- _ => rewrite E; clear E
         end.
  reflexivity.
Qed.

Lemma map_exn_same {lax : PydanticLax} (l1 l2 : list pyobj) :
  Forall2 same_item l1 l2 ->
  map_exn LineItem_init l1 = map_exn LineItem_init l2.
Proof.
  induction 1 as [|a b l1 l2 Hab _ IH]; simpl; [reflexivity|].
  now rewrite (LineItem_init_same a b Hab), IH.
Qed.

Lemma build_result_same {lax : PydanticLax} (today : str) (d1 d2 : dict) :
  same_schema d1 d2 ->
  build_result today (PyDict d1) = build_result today (PyDict d2).
Proof.
  intros [Hs Hl]. unfold agree_on, scalar_fields in Hs.
  repeat match goal with
         | F : Forall _ (_ :: _) |- _ => inversion_clear F
         end.
  unfold build_result, dict_get_default.
  repeat match goal with
         | E : dict_get ?k d1 = dict_get ?k d2 |- _ => rewrite E; clear E
         end.
  assert (Hitems :
            (items <- py_iter match dict_get (lit "line_items") d1 with
                              | Some v => v
                              | None => PyList []
                              end ;;
             map_exn LineItem_init items)
            = (items <- py_iter match dict_get (lit "line_items") d2 with
                                | Some v => v
                                | None => PyList []
                                end ;;
               map_exn LineItem_init items)).
  { destruct (dict_get (lit "line_items") d1) as [x1|],
             (dict_get (lit "line_items") d2) as [x2|];
      try destruct x1; try destruct x2;
      try (injection Hl as <-); try discriminate Hl; try reflexivity.
    simpl. now apply map_exn_same. }
  apply bind_ext. intros amount0.
  rewrite 2 (bind_assoc (py_iter _) (map_exn LineItem_init)).
  now rewrite Hitems.
Qed.




(** ** Splitting *)

Lemma startswith_refl (p rest : str) : startswith p (p ++ rest) = true.
Proof.
  induction p as [|x p IH]; simpl; [now destruct rest|].
  now rewrite N.eqb_refl.
Qed.

Lemma startswith_app (p q s : str) :
  startswith (p ++ q) s = true -> startswith p s = true.
Proof.
  revert s; induction p as [|x p IH]; intros s; simpl; [now destruct s|].
  destruct s as [|y s]; [discriminate|].
  intros H. apply andb_true_iff in H as [-> H]. simpl. now apply IH.
Qed.

Lemma partition_unfold (sep s : str) :
  partition sep s
  = if startswith sep s then Some ([], skipn (length sep) s)
    else match s with
         | [] => None
         | c :: s' =>
             match partition sep s' with
             | Some (a, b) => Some (c :: a, b)
             | None => None
             end
         end.
Proof. destruct s; reflexivity. Qed.

Lemma partition_here (sep rest : str) :
  partition sep (sep ++ rest) = Some ([], rest).
Proof.
  assert (H : skipn (length sep) (sep ++ rest) = rest).
  { induction sep; simpl; auto. }
  now rewrite partition_unfold, startswith_refl, H.
Qed.

Lemma partition_step (sep : str) (c : N) (s : str) :
  startswith sep (c :: s) = false ->
  partition sep (c :: s)
  = match partition sep s with
    | Some (a, b) => Some (c :: a, b)
    | None => None
    end.
Proof. intros H. now rewrite partition_unfold, H. Qed.

Lemma partition_none_startswith (sep s : str) :
  partition sep s = None -> startswith sep s = false.
Proof.
  rewrite partition_unfold. now destruct (startswith sep s).
Qed.

Lemma partition_none_tail (sep : str) (c : N) (s : str) :
  partition sep (c :: s) = None -> partition sep s = None.
Proof.
  rewrite partition_unfold. destruct (startswith sep (c :: s)); [discriminate|].
  now destruct (partition sep s) as [[a b]|].
Qed.

Lemma startswith_decompose (p s : str) :
  startswith p s = true -> s = p ++ skipn (length p) s.
Proof.
  revert s; induction p as [|x p IH]; intros s; simpl; [reflexivity|].
  destruct s as [|y s]; [discriminate|].
  intros H. apply andb_true_iff in H as [Hx H]. apply N.eqb_eq in Hx.
  subst y. f_equal. now apply IH.
Qed.

(** [partition] cuts at an occurrence of the separator. *)
Lemma partition_spec (sep s a b : str) :
  partition sep s = Some (a, b) -> s = a ++ sep ++ b.
Proof.
  revert a; induction s as [|c s IH]; intros a; rewrite partition_unfold;
    destruct (startswith sep _) eqn:E;
    try (intros [= <- <-]; now apply startswith_decompose);
    try discriminate.
  destruct (partition sep s) as [[a' b']|]; [|discriminate].
  intros [= <- <-]. simpl. f_equal. now apply IH.
Qed.

(** [split] loses nothing: joining the pieces with the separator gives
    the text back, whatever the fuel. *)
Lemma join_split_fuel (n : nat) (sep s : str) :
  join sep (split_fuel n sep s) = s.
Proof.
  revert s; induction n as [|n IH]; intros s; simpl;
    destruct (partition sep s) as [[a b]|] eqn:E; try reflexivity.
  - apply partition_spec in E. now subst s.
  - apply partition_spec in E. specialize (IH b).
    destruct (split_fuel n sep b) as [|p rest] eqn:Es.
    + destruct n; simpl in Es; destruct (partition sep b) as [[? ?]|];
        discriminate.
    + simpl join. simpl in IH. rewrite E. f_equal. f_equal. exact IH.
Qed.

Lemma join_split (sep s : str) : join sep (split sep s) = s.
Proof. apply join_split_fuel. Qed.

(** ** Fencing *)

(** A line break never completes a run of backticks. *)
Lemma startswith_fence_break (u v : str) :
  startswith fence (u ++ newline :: v) = startswith fence u.
Proof.
  change fence with [96; 96; 96]%N. unfold newline.
  destruct u as [|a [|b [|c u]]]; simpl;
    repeat match goal with
           | |- context [(96 =? ?x)%N] => destruct (96 =? x)%N; simpl
           end; reflexivity.
Qed.

Lemma startswith_fence_json (s : str) :
  startswith fence s = false -> startswith fence_json s = false.
Proof.
  intros H. destruct (startswith fence_json s) eqn:E; [|reflexivity].
  change fence_json with (fence ++ lit "json") in E.
  apply startswith_app in E. congruence.
Qed.

(** Without a fence in [t], the first fence of [t] followed by a closing
    fence is the closing one. *)
Lemma partition_closing_fence (t : str) :
  contains fence t = false ->
  partition fence (t ++ newline :: fence) = Some (t ++ [newline], []).
Proof.
  unfold contains. induction t as [|c t IH]; intros H; [reflexivity|].
  destruct (partition fence (c :: t)) as [p|] eqn:E; [discriminate|].
  simpl app. rewrite partition_step.
  - rewrite IH; [reflexivity|]. now rewrite (partition_none_tail _ _ _ E).
  - change (c :: t ++ newline :: fence) with ((c :: t) ++ newline :: fence).
    rewrite startswith_fence_break. now apply partition_none_startswith.
Qed.

Lemma partition_no_fence_json (t : str) :
  contains fence t = false ->
  partition fence_json (t ++ newline :: fence) = None.
Proof.
  unfold contains. induction t as [|c t IH]; intros H; [reflexivity|].
  destruct (partition fence (c :: t)) as [p|] eqn:E; [discriminate|].
  simpl app. rewrite partition_step.
  - rewrite IH; [reflexivity|]. now rewrite (partition_none_tail _ _ _ E).
  - apply startswith_fence_json.
    change (c :: t ++ newline :: fence) with ((c :: t) ++ newline :: fence).
    rewrite startswith_fence_break. now apply partition_none_startswith.
Qed.

Lemma partition_no_fence_inside (t : str) :
  contains fence t = false ->
  partition fence (t ++ [newline]) = None.
Proof.
  unfold contains. induction t as [|c t IH]; intros H; [reflexivity|].
  destruct (partition fence (c :: t)) as [p|] eqn:E; [discriminate|].
  simpl app. rewrite partition_step.
  - rewrite IH; [reflexivity|]. now rewrite (partition_none_tail _ _ _ E).
  - change (c :: t ++ [newline]) with ((c :: t) ++ newline :: []).
    rewrite startswith_fence_break. now apply partition_none_startswith.
Qed.

Lemma contains_fence_json (t : str) :
  contains fence t = false -> contains fence_json t = false.
Proof.
  unfold contains. induction t as [|c t IH]; intros H; [reflexivity|].
  destruct (partition fence (c :: t)) as [p|] eqn:E; [discriminate|].
  rewrite partition_step.
  - specialize (IH ltac:(now rewrite (partition_none_tail _ _ _ E))).
    now destruct (partition fence_json t) as [[a b]|].
  - apply startswith_fence_json. now apply partition_none_startswith.
Qed.

Lemma split_fuel_none (n : nat) (sep s : str) :
  partition sep s = None -> split_fuel n sep s = [s].
Proof. intros H. destruct n; simpl; now rewrite H. Qed.

Lemma split_fuel_head (n : nat) (sep s a b : str) :
  partition sep s = Some (a, b) -> exists tl, split_fuel n sep s = a :: tl.
Proof. intros H. destruct n; simpl; rewrite H; eauto. Qed.

Lemma index_1_split (sep : str) (c : N) (s a b x : str) :
  partition sep (c :: s) = Some (a, b) ->
  (forall n, index (split_fuel n sep b) 0 = inr x) ->
  index (split sep (c :: s)) 1 = inr x.
Proof.
  intros H Hx. unfold split. simpl length. simpl split_fuel. simpl in H.
  rewrite H. exact (Hx _).
Qed.

Lemma index_0_none (n : nat) (sep s : str) :
  partition sep s = None -> index (split_fuel n sep s) 0 = inr s.
Proof. intros H. now rewrite split_fuel_none. Qed.

Lemma index_0_some (n : nat) (sep s a b : str) :
  partition sep s = Some (a, b) -> index (split_fuel n sep s) 0 = inr a.
Proof. intros H. destruct (split_fuel_head n sep s a b H) as [tl ->]. reflexivity. Qed.

Lemma lstrip_app (t w : str) :
  lstrip (t ++ w) = match lstrip t with
                    | [] => lstrip w
                    | _ :: _ => lstrip t ++ w
                    end.
Proof.
  induction t as [|c t IH]; simpl; [now destruct (lstrip w)|].
  destruct (isspace c); [exact IH | reflexivity].
Qed.

(** A line break on each side does not change what [strip] keeps. *)
Lemma strip_line_breaks (t : str) :
  strip (newline :: t ++ [newline]) = strip t.
Proof.
  unfold strip, rstrip. simpl lstrip. change (isspace newline) with true.
  cbv iota. rewrite lstrip_app.
  destruct (lstrip t) as [|c u] eqn:E; [reflexivity|].
  rewrite rev_app_distr. reflexivity.
Qed.

Lemma clean_response_unfenced (t : str) :
  contains fence t = false -> clean_response t = inr t.
Proof.
  intros H. unfold clean_response.
  now rewrite (contains_fence_json t H), H.
Qed.

(** The parser reads a text without three backticks in a row as it
    stands. *)
Lemma provider_json_direct (text : str) (v : pyobj) :
  contains fence text = false ->
  json_loads (strip text) = inr v ->
  provider_json text v.
Proof.
  intros Hf Hj. exists text. split; [now apply clean_response_unfenced | exact Hj].
Qed.

Lemma clean_response_fenced_json (t : str) :
  contains fence t = false ->
  clean_response (fenced_json t) = inr (newline :: t ++ [newline]).
Proof.
  intros H. unfold clean_response, fenced_json.
  assert (Hrest : partition fence_json (newline :: t ++ newline :: fence) = None).
  { rewrite partition_step by reflexivity.
    now rewrite (partition_no_fence_json t H). }
  assert (Hclose : partition fence (newline :: t ++ newline :: fence)
                   = Some (newline :: t ++ [newline], [])).
  { rewrite partition_step by reflexivity.
    now rewrite (partition_closing_fence t H). }
  unfold contains. rewrite partition_here.
  change (fence_json ++ newline :: t ++ newline :: fence)
    with (96%N :: (lit "``json" ++ newline :: t ++ newline :: fence)).
  rewrite (index_1_split fence_json _ _ [] (newline :: t ++ newline :: fence)
             (newline :: t ++ newline :: fence)).
  - simpl bind. unfold split. now apply index_0_some with (b := []).
  - apply (partition_here fence_json).
  - intros n. now apply index_0_none.
Qed.

Lemma clean_response_fenced_bare (t : str) :
  contains fence t = false ->
  clean_response (fenced_bare t) = inr (newline :: t ++ [newline]).
Proof.
  intros H. unfold clean_response, fenced_bare.
  assert (Hopen : partition fence_json (fence ++ newline :: t ++ newline :: fence)
                  = None).
  { change (fence ++ newline :: t ++ newline :: fence)
      with (96 :: 96 :: 96 :: newline :: t ++ newline :: fence)%N.
    do 4 (rewrite partition_step by reflexivity).
    now rewrite (partition_no_fence_json t H). }
  assert (Hclose : partition fence (newline :: t ++ newline :: fence)
                   = Some (newline :: t ++ [newline], [])).
  { rewrite partition_step by reflexivity.
    now rewrite (partition_closing_fence t H). }
  assert (Hin : partition fence (newline :: t ++ [newline]) = None).
  { rewrite partition_step by reflexivity.
    now rewrite (partition_no_fence_inside t H). }
  unfold contains. rewrite Hopen, partition_here.
  change (fence ++ newline :: t ++ newline :: fence)
    with (96%N :: (lit "``" ++ newline :: t ++ newline :: fence)).
  rewrite (index_1_split fence _ _ [] (newline :: t ++ newline :: fence)
             (newline :: t ++ [newline])).
  - simpl bind. unfold split. now apply index_0_none.
  - apply (partition_here fence).
  - intros n. now apply index_0_some with (b := []).
Qed.

(** C4, as the code has it.  For a text [t] in which no run of three
    backticks occurs, the text wrapped in one level of fencing, with or
    without the json tag, parses to what [t] itself parses to, and [t]
    itself goes to the JSON parser unchanged but for the white space at
    its ends. *)
Theorem fenced_parses_as_unfenced {lax : PydanticLax} (today t : str) :
  contains fence t = false ->
  parse_response today (fenced_json t) = parse_response today t /\
  parse_response today (fenced_bare t) = parse_response today t /\
  clean_response t = inr t.
Proof.
  intros H. unfold parse_response, parse_text.
  rewrite (clean_response_fenced_json t H), (clean_response_fenced_bare t H),
          (clean_response_unfenced t H).
  simpl bind. rewrite strip_line_breaks. auto.
Qed.

(** C4 on the fenced text of an object with a vendor. *)
Lemma fenced_parses_as_unfenced_witness :
  let t := json_lit "{'vendor': 'Cafe', 'amount': 5}" in
  @parse_response default_lax (lit "2024-05-01") (fenced_json t)
  = @parse_response default_lax (lit "2024-05-01") t /\
  @parse_response default_lax (lit "2024-05-01") (fenced_bare t)
  = @parse_response default_lax (lit "2024-05-01") t /\
  clean_response t = inr t.
Proof.
  intros t.
  apply (@fenced_parses_as_unfenced default_lax (lit "2024-05-01") t).
  reflexivity.
Defined.

(** The claim C4 fails on a text that holds backticks: the object below,
    whose vendor is a run of backticks around a pair of braces, parses
    directly to the defaults (the code cuts the braces out of the string),
    and fails to parse once wrapped in a fence.  Read as JSON, the text is
    an object with that vendor. *)
Lemma fencing_not_transparent :
  let t := json_lit "{'vendor': '```{}```'}" in
  let today := lit "2024-05-01" in
  json_loads t = inr (PyDict [(lit "vendor", PyStr (lit "```{}```"))]) /\
  @parse_response default_lax today t
  = inr {| vendor := lit "Unknown"; date := today; amount := 0%float;
           currency := lit "USD"; category := lit "Other";
           payment_method := None; receipt_number := None;
           line_items := []; confidence_score := 0.5%float |} /\
  @parse_response default_lax today (fenced_json t)
  = inl (mkHTTP 500 FailedToParseAIResponse) /\
  @parse_response default_lax today (fenced_json t)
  <> @parse_response default_lax today t.
Proof.
  intros t today.
  assert (H1 : @parse_response default_lax today t
               = inr {| vendor := lit "Unknown"; date := today; amount := 0%float;
                        currency := lit "USD"; category := lit "Other";
                        payment_method := None; receipt_number := None;
                        line_items := []; confidence_score := 0.5%float |})
    by (vm_compute; reflexivity).
  assert (H2 : @parse_response default_lax today (fenced_json t)
               = inl (mkHTTP 500 FailedToParseAIResponse))
    by (vm_compute; reflexivity).
  split; [vm_compute; reflexivity|]. split; [exact H1|]. split; [exact H2|].
  rewrite H1, H2. discriminate.
Qed.

(** * Further properties of the scan *)

(** ** Round trip through the models *)

Lemma LineItem_round_trip {lax : PydanticLax} (li : LineItem) :
  LineItem_init (LineItem_dump li) = inr li.
Proof. destruct li as [d [q|] [u|] [t|]]; reflexivity. Qed.

Lemma line_items_round_trip {lax : PydanticLax} (lis : list LineItem) :
  map_exn LineItem_init (map LineItem_dump lis) = inr lis.
Proof.
  induction lis as [|li lis IH]; [reflexivity|].
  cbn [map map_exn]. rewrite LineItem_round_trip. cbn [bind].
  rewrite IH. reflexivity.
Qed.

(** X1.  An object that carries all nine fields with the types of the
    schema is read back field for field: assembling the dump of a result
    [r], with whatever other keys around it, gives [r] itself, the line
    items in their order and the category as it stands. *)
Theorem well_formed_object_round_trip {lax : PydanticLax} (today : str)
        (r : ReceiptScanResult) (d : dict) :
  same_schema d (ReceiptScanResult_dump r) ->
  build_result today (PyDict d) = inr r.
Proof.
  intros H. rewrite (build_result_same today _ _ H).
  destruct r as [v dt a cu ca pm rn lis c].
  unfold build_result, ReceiptScanResult_dump.
  repeat (erewrite dict_get_default_some by reflexivity).
  cbn [py_float py_iter bind]. rewrite line_items_round_trip. cbn [bind].
  destruct pm, rn; reflexivity.
Qed.

(** X1 on a receipt with one line item and a stray key. *)
Lemma well_formed_object_round_trip_witness :
  let r := {| vendor := lit "Cafe"; date := lit "2024-03-02";
              amount := 12.5%float; currency := lit "EUR";
              category := lit "Meals & Dining";
              payment_method := Some (lit "Cash"); receipt_number := None;
              line_items := [mkLineItem (lit "tea") (Some 2%float)
                                        (Some 6.25%float) None];
              confidence_score := 0.75%float |} in
  @build_result default_lax (lit "2024-05-01")
     (PyDict ((lit "note", PyStr (lit "x")) :: ReceiptScanResult_dump r))
  = inr r.
Proof.
  intros r.
  apply (@well_formed_object_round_trip default_lax).
  split.
  - repeat constructor.
  - simpl. repeat constructor.
Defined.

(** ** What reaches the JSON parser *)

Lemma startswith_app_r (p u v : str) :
  startswith p u = true -> startswith p (u ++ v) = true.
Proof.
  revert u; induction p as [|x p IH]; intros u; simpl; [now destruct (u ++ v)|].
  destruct u as [|y u]; [discriminate|]. simpl.
  intros H. apply andb_true_iff in H as [-> H]. simpl. now apply IH.
Qed.

(** The text before the first occurrence of a separator does not hold
    the separator. *)
Lemma partition_before (sep s a b : str) :
  sep <> [] ->
  partition sep s = Some (a, b) -> partition sep a = None.
Proof.
  intros Hsep. revert a; induction s as [|c s IH]; intros a;
    rewrite partition_unfold; destruct (startswith sep _) eqn:E.
  - intros [= <- <-]. destruct sep; [congruence | reflexivity].
  - discriminate.
  - intros [= <- <-]. destruct sep; [congruence | reflexivity].
  - destruct (partition sep s) as [[a' b']|] eqn:Ep; [|discriminate].
    intros [= <- <-]. specialize (IH a' eq_refl).
    rewrite partition_unfold, IH.
    destruct (startswith sep (c :: a')) eqn:E'; [|reflexivity].
    apply partition_spec in Ep. subst s.
    change (c :: a' ++ sep ++ b') with ((c :: a') ++ sep ++ b') in E.
    rewrite (startswith_app_r _ _ _ E') in E. discriminate.
Qed.

Lemma fence_nonempty : fence <> [].
Proof. discriminate. Qed.

Lemma fence_json_nonempty : fence_json <> [].
Proof. discriminate. Qed.

Lemma index_0_split_fence_free (n : nat) (t : str) :
  exists c, index (split_fuel n fence t) 0 = inr c /\ contains fence c = false.
Proof.
  unfold contains. destruct (partition fence t) as [[a b]|] eqn:E.
  - exists a. split; [now apply index_0_some with (b := b)|].
    now rewrite (partition_before _ _ _ _ fence_nonempty E).
  - exists t. split; [now apply index_0_none|]. now rewrite E.
Qed.

Lemma index_1_split_exists (sep s a b : str) :
  sep <> [] ->
  partition sep s = Some (a, b) ->
  exists n, index (split sep s) 1 = index (split_fuel n sep b) 0.
Proof.
  intros Hsep H. unfold split. destruct s as [|c s].
  - destruct sep; [congruence | discriminate].
  - exists (length s). cbn [length split_fuel]. rewrite H. unfold index. simpl.
    destruct (split_fuel (length s) sep b); reflexivity.
Qed.

(** X2.  The clean-up of lines 414-418 never raises, whatever the text,
    and what it hands to the JSON parser holds no run of three
    backticks. *)
Theorem clean_response_fence_free (response_text : str) :
  exists cleaned,
    clean_response response_text = inr cleaned /\
    contains fence cleaned = false.
Proof.
  unfold clean_response.
  destruct (contains fence_json response_text) eqn:Ej.
  - unfold contains in Ej.
    destruct (partition fence_json response_text) as [[a b]|] eqn:E;
      [|discriminate].
    destruct (index_1_split_exists _ _ _ _ fence_json_nonempty E) as [n ->].
    destruct (partition fence_json b) as [[a' b']|] eqn:E'.
    + rewrite (index_0_some n _ _ _ _ E'). simpl. apply index_0_split_fence_free.
    + rewrite (index_0_none n _ _ E'). simpl. apply index_0_split_fence_free.
  - destruct (contains fence response_text) eqn:Ef.
    + unfold contains in Ef.
      destruct (partition fence response_text) as [[a b]|] eqn:E;
        [|discriminate].
      destruct (index_1_split_exists _ _ _ _ fence_nonempty E) as [n ->].
      destruct (index_0_split_fence_free n b) as (c & -> & Hc). simpl.
      apply index_0_split_fence_free.
    + now exists response_text.
Qed.

(** ** Failures of the parsing stage *)

(** X3.  A text that is not JSON is reported as "Failed to parse AI
    response"; a text that is JSON but not an object (an array, a string,
    a number, null) is reported as "Failed to scan receipt", with the
    AttributeError of the first [result.get]. *)
Theorem parse_failure_kinds {lax : PydanticLax} (today text cleaned : str) :
  clean_response text = inr cleaned ->
  (json_loads (strip cleaned) = inl JSONDecodeError ->
   parse_response today text = inl (mkHTTP 500 FailedToParseAIResponse)) /\
  (forall v, json_loads (strip cleaned) = inr v ->
             (forall d, v <> PyDict d) ->
             parse_response today text
             = inl (mkHTTP 500 (FailedToScanReceipt AttributeError))).
Proof.
  intros Hc. unfold parse_response, parse_text. rewrite Hc. cbn [bind].
  split.
  - intros ->. reflexivity.
  - intros v -> Hv. cbn [bind].
    destruct v; try reflexivity. now contradiction (Hv d).
Qed.

(** X3 on the text of an array. *)
Lemma parse_failure_kinds_witness :
  (json_loads (strip (json_lit "[1, 2]")) = inl JSONDecodeError ->
   @parse_response default_lax (lit "2024-05-01") (json_lit "[1, 2]")
   = inl (mkHTTP 500 FailedToParseAIResponse)) /\
  (forall v, json_loads (strip (json_lit "[1, 2]")) = inr v ->
             (forall d, v <> PyDict d) ->
             @parse_response default_lax (lit "2024-05-01") (json_lit "[1, 2]")
             = inl (mkHTTP 500 (FailedToScanReceipt AttributeError))).
Proof.
  apply (@parse_failure_kinds default_lax (lit "2024-05-01")
           (json_lit "[1, 2]") (json_lit "[1, 2]")).
  reflexivity.
Defined.

(** ** Line items *)

Lemma map_exn_Forall2 {A B : Type} (f : A -> exn + B) (l : list A) (l' : list B) :
  map_exn f l = inr l' -> Forall2 (fun x y => f x = inr y) l l'.
Proof.
  revert l'; induction l as [|x l IH]; intros l'; simpl.
  - intros [= <-]. constructor.
  - unfold bind. destruct (f x) as [e|y] eqn:E; [discriminate|].
    destruct (map_exn f l) as [e|ys]; [discriminate|].
    intros [= <-]. constructor; auto.
Qed.

(** X4.  The line items of a result are the validated elements of the
    line_items array of the JSON object that the parser reads from the
    response, one for one and in the same order. *)
Theorem line_items_in_order {lax : PydanticLax} (today text : str) (d : dict)
        (items : list pyobj) (r : ReceiptScanResult) :
  provider_json text (PyDict d) ->
  dict_get (lit "line_items") d = Some (PyList items) ->
  parse_response today text = inr r ->
  Forall2 (fun item li => LineItem_init item = inr li) items (line_items r).
Proof.
  intros Hj Hl Hr. apply (parse_response_inr _ _ _ _ Hj) in Hr.
  apply build_result_inv in Hr as (_ & _ & _ & _ & _ & _ & _ & Hi & _).
  destruct Hi as (items' & Hi & Hm).
  rewrite (dict_get_default_some _ _ _ _ Hl) in Hi. injection Hi as <-.
  now apply map_exn_Forall2.
Qed.

(** X4 on an array of two line items. *)
Lemma line_items_in_order_witness :
  Forall2 (fun item li => @LineItem_init default_lax item = inr li)
          [PyDict [(lit "description", PyStr (lit "tea"))];
           PyDict [(lit "description", PyStr (lit "cake")); (lit "total", PyInt 3)]]
          [mkLineItem (lit "tea") (Some 1%float) None None;
           mkLineItem (lit "cake") (Some 1%float) None (Some 3%float)].
Proof.
  apply (@line_items_in_order default_lax (lit "2024-05-01")
           (json_lit "{'line_items': [{'description': 'tea'}, {'description': 'cake', 'total': 3}]}")
           [(lit "line_items",
             PyList [PyDict [(lit "description", PyStr (lit "tea"))];
                     PyDict [(lit "description", PyStr (lit "cake"));
                             (lit "total", PyInt 3)]])]
           _
           {| vendor := lit "Unknown"; date := lit "2024-05-01";
              amount := 0%float; currency := lit "USD"; category := lit "Other";
              payment_method := None; receipt_number := None;
              line_items := [mkLineItem (lit "tea") (Some 1%float) None None;
                             mkLineItem (lit "cake") (Some 1%float) None
                                        (Some 3%float)];
              confidence_score := 0.5%float |}).
  - eexists. split; reflexivity.
  - reflexivity.
  - reflexivity.
Defined.

(** ** Failures of the endpoint *)

Lemma normalize_image_error {pil : PIL} (file : UploadFile) (h : HTTPException) :
  fst (normalize_image file) = inl h -> status_code h = 400.
Proof.
  unfold normalize_image.
  destruct (eqb_str _ application_pdf); [now intros [= <-]|].
  destruct (process_image (file_content file) []) as [[e|out] log];
    [now intros [= <-] | discriminate].
Qed.

Lemma handle_status {A : Type} (c : exn + A) (h : HTTPException) :
  handle c = inl h -> status_code h = 500.
Proof.
  destruct c as [e|a]; [|discriminate].
  destruct e; now intros [= <-].
Qed.

(** X5.  A failure of the endpoint has status 400 or 500.  It is 400
    exactly when the image could not be normalised, and then the provider
    plays no part; once the image is normalised every failure is a 500. *)
Theorem scan_receipt_failure_status {pil : PIL} {provider : Provider}
        {lax : PydanticLax} (today : str) (file : UploadFile)
        (h : HTTPException) :
  scan_receipt today file = inl h ->
  (status_code h = 400 /\ fst (normalize_image file) = inl h) \/
  (status_code h = 500 /\ exists out, fst (normalize_image file) = inr out).
Proof.
  unfold scan_receipt.
  destruct (fst (normalize_image file)) as [h'|[content ty]] eqn:En.
  - intros [= <-]. left. split; [eapply normalize_image_error; eassumption|reflexivity].
  - intros H. right. split; [|now exists (content, ty)].
    destruct (post_messages content ty) as [e|api];
      [now apply handle_status in H|].
    destruct (negb (resp_status api =? 200)).
    + destruct (if resp_is_json api then resp_json api else inr PyNone);
        [now apply handle_status in H | now injection H as <-].
    + now apply handle_status in H.
Qed.

(** X5 on a payload that does not decode. *)
Lemma scan_receipt_failure_status_witness :
  let P := toy_pil 10 10 (lit "RGB") 8 in
  let h := mkHTTP 400 (CouldNotProcessImage ImageError) in
  (status_code h = 400 /\
   fst (@normalize_image P (mkUpload [] None)) = inl h) \/
  (status_code h = 500 /\
   exists out, fst (@normalize_image P (mkUpload [] None)) = inr out).
Proof.
  intros P h.
  apply (@scan_receipt_failure_status P (stub_provider (lit "{}")) default_lax
           (lit "2024-05-01") (mkUpload [] None) h).
  reflexivity.
Defined.

(** X6.  When the provider answers with a status other than 200 the
    endpoint fails with a 500, whatever the body holds; unless decoding a
    JSON error body itself fails, the detail carries the provider's
    status. *)
Theorem provider_status_not_200 {pil : PIL} {provider : Provider}
        {lax : PydanticLax} (today : str) (file : UploadFile)
        (content : bytes) (ty : str) (api : api_response) :
  fst (normalize_image file) = inr (content, ty) ->
  post_messages content ty = inr api ->
  resp_status api <> 200 ->
  exists h,
    scan_receipt today file = inl h /\
    status_code h = 500 /\
    (resp_is_json api = false \/ (exists body, resp_json api = inr body) ->
     http_detail h = AIServiceError (resp_status api)).
Proof.
  intros Hn Hp Hs. unfold scan_receipt. rewrite Hn, Hp.
  apply Z.eqb_neq in Hs. rewrite Hs. cbn [negb].
  destruct (resp_is_json api) eqn:Ej.
  - destruct (resp_json api) as [e|body] eqn:Eb.
    + destruct (@handle ReceiptScanResult (inl e)) as [h|r] eqn:Eh;
        [|destruct e; discriminate].
      exists h. split; [reflexivity|]. split; [now apply handle_status in Eh|].
      intros [H|[body H]]; discriminate.
    + eexists. split; [reflexivity|]. split; reflexivity.
  - eexists. split; [reflexivity|]. split; reflexivity.
Qed.

(** X6 on a provider that answers 529 with a result in its body. *)
Lemma provider_status_not_200_witness :
  let P := toy_pil 10 10 (lit "RGB") 8 in
  let body := PyDict [(lit "content",
                       PyList [PyDict [(lit "text", PyStr (lit "{}"))]])] in
  let overloaded : Provider :=
    {| post_messages := fun _ _ => inr (mkResponse 529 true (inr body)) |} in
  exists h,
    @scan_receipt P overloaded default_lax (lit "2024-05-01")
                  (mkUpload [xff; xd8] None) = inl h /\
    status_code h = 500 /\
    (true = false \/ (exists b, inr body = inr b :> exn + pyobj) ->
     http_detail h = AIServiceError 529).
Proof.
  intros P body overloaded.
  apply (@provider_status_not_200 P overloaded default_lax (lit "2024-05-01")
           (mkUpload [xff; xd8] None) (repeat x00 1062) image_jpeg
           (mkResponse 529 true (inr body))).
  - reflexivity.
  - reflexivity.
  - discriminate.
Defined.

(** ** Images within the bounds *)

(** X7.  An RGB image of at most 1500 by 1500 pixels is never resized
    nor converted: what the endpoint sends on is an encode of the decoded
    image itself. *)
Theorem image_within_bounds_kept {pil : PIL} (file : UploadFile) (img : image) :
  PIL_open (file_content file) = inr img ->
  mode img = lit "RGB" ->
  width img <= max_dimension ->
  height img <= max_dimension ->
  resizes (snd (normalize_image file)) = [] /\
  forall out ty,
    fst (normalize_image file) = inr (out, ty) ->
    save_jpeg img 85 = inr out \/ save_jpeg img 50 = inr out.
Proof.
  intros Hopen Hmode Hw Hh. unfold normalize_image.
  destruct (eqb_str _ application_pdf); [split; [reflexivity | discriminate]|].
  unfold process_image, m_bind, call, lift, m_ret.
  rewrite Hopen, Hmode. cbn [eqb_str negb].
  replace (eqb_str (lit "RGB") (lit "RGB")) with true by reflexivity.
  cbn [negb].
  replace (width img >? max_dimension) with false
    by (symmetry; rewrite Z.gtb_ltb; apply Z.ltb_ge; lia).
  replace (height img >? max_dimension) with false
    by (symmetry; rewrite Z.gtb_ltb; apply Z.ltb_ge; lia).
  cbn [orb].
  destruct (save_jpeg img 85) as [e|b] eqn:E85;
    [split; [reflexivity | discriminate]|].
  destruct (Z.of_nat (length b) >? size_ceiling).
  - destruct (save_jpeg img 50) as [e|b'] eqn:E50;
      (split; [reflexivity|]); [discriminate|].
    intros out ty [= <- <-]. now right.
  - split; [reflexivity|]. intros out ty [= <- <-]. now left.
Qed.

(** X7 on a 640 by 480 image of the toy library. *)
Lemma image_within_bounds_kept_witness :
  let P := toy_pil 640 480 (lit "RGB") 800 in
  let file := mkUpload [xff; xd8] None in
  resizes (snd (@normalize_image P file)) = [] /\
  forall out ty,
    fst (@normalize_image P file) = inr (out, ty) ->
    @save_jpeg P (mkToy 640 480 (lit "RGB")) 85 = inr out \/
    @save_jpeg P (mkToy 640 480 (lit "RGB")) 50 = inr out.
Proof.
  intros P file.
  apply (@image_within_bounds_kept P file (mkToy 640 480 (lit "RGB")));
    [reflexivity | reflexivity | unfold max_dimension; simpl; lia
     | unfold max_dimension; simpl; lia].
Defined.

(** ** Prose around the fenced block *)

Lemma startswith_fence_json_after (u rest : str) :
  u <> [] ->
  startswith fence u = false ->
  startswith fence_json (u ++ fence_json ++ rest) = false.
Proof.
  change fence with [96; 96; 96]%N.
  change fence_json with [96; 96; 96; 106; 115; 111; 110]%N.
  destruct u as [|a [|b [|c u]]]; [congruence| | |]; intros _;
    cbn [startswith app];
    repeat match goal with
           | |- context [(96 =? ?x)%N] =>
               is_var x; destruct (96 =? x)%N; cbn [andb]
           end; intros H; try reflexivity; try discriminate H.
Qed.

(** The first tagged fence of a text whose beginning holds no fence. *)
Lemma partition_opening_fence (pre rest : str) :
  contains fence pre = false ->
  partition fence_json (pre ++ fence_json ++ rest) = Some (pre, rest).
Proof.
  unfold contains. induction pre as [|c pre IH]; intros H.
  - exact (partition_here fence_json rest).
  - destruct (partition fence (c :: pre)) as [p|] eqn:E; [discriminate|].
    cbn [app]. rewrite partition_step.
    + rewrite IH; [reflexivity|]. now rewrite (partition_none_tail _ _ _ E).
    + change (c :: pre ++ fence_json ++ rest)
        with ((c :: pre) ++ fence_json ++ rest).
      apply startswith_fence_json_after; [discriminate|].
      now apply partition_none_startswith.
Qed.

(** The closing fence, with any text after it. *)
Lemma partition_closing_fence_then (t post : str) :
  contains fence t = false ->
  partition fence (t ++ newline :: fence ++ post) = Some (t ++ [newline], post).
Proof.
  unfold contains. induction t as [|c t IH]; intros H.
  - cbn [app]. rewrite partition_step by reflexivity.
    now rewrite partition_here.
  - destruct (partition fence (c :: t)) as [p|] eqn:E; [discriminate|].
    cbn [app]. rewrite partition_step.
    + rewrite IH; [reflexivity|]. now rewrite (partition_none_tail _ _ _ E).
    + change (c :: t ++ newline :: fence ++ post)
        with ((c :: t) ++ newline :: fence ++ post).
      rewrite startswith_fence_break. now apply partition_none_startswith.
Qed.

(** A later tagged fence, if any, lies after the closing fence. *)
Lemma partition_json_after_block (t post : str) :
  contains fence t = false ->
  startswith (lit "json") post = false ->
  startswith (lit "`") post = false ->
  partition fence_json (t ++ newline :: fence ++ post)
  = match partition fence_json post with
    | Some (a, b) => Some (t ++ newline :: fence ++ a, b)
    | None => None
    end.
Proof.
  intros H Hj Hb. unfold contains in H. induction t as [|c t IH].
  - cbn [app]. rewrite partition_step by reflexivity.
    change (fence ++ post) with (96 :: 96 :: 96 :: post)%N.
    assert (H0 : startswith fence_json (96 :: 96 :: 96 :: post)%N = false).
    { change (startswith fence_json (96 :: 96 :: 96 :: post)%N)
        with (startswith (lit "json") post). exact Hj. }
    assert (H1 : startswith fence_json (96 :: 96 :: post)%N = false).
    { destruct post as [|x post]; [reflexivity|].
      change (startswith (lit "`") (x :: post)) with ((96 =? x)%N && true) in Hb.
      rewrite andb_true_r in Hb.
      change fence_json with [96; 96; 96; 106; 115; 111; 110]%N.
      cbn [startswith]. rewrite Hb. reflexivity. }
    assert (H2 : startswith fence_json (96 :: post)%N = false).
    { destruct post as [|x post]; [reflexivity|].
      change (startswith (lit "`") (x :: post)) with ((96 =? x)%N && true) in Hb.
      rewrite andb_true_r in Hb.
      change fence_json with [96; 96; 96; 106; 115; 111; 110]%N.
      cbn [startswith]. rewrite Hb. reflexivity. }
    rewrite (partition_step _ _ _ H0), (partition_step _ _ _ H1),
            (partition_step _ _ _ H2).
    now destruct (partition fence_json post) as [[a b]|].
  - destruct (partition fence (c :: t)) as [p|] eqn:E; [discriminate|].
    cbn [app]. rewrite partition_step.
    + rewrite IH by now rewrite (partition_none_tail _ _ _ E).
      now destruct (partition fence_json post) as [[a b]|].
    + apply startswith_fence_json.
      change (c :: t ++ newline :: fence ++ post)
        with ((c :: t) ++ newline :: fence ++ post).
      rewrite startswith_fence_break. now apply partition_none_startswith.
Qed.

(** X8.  When the provider surrounds the fenced block with prose, the
    prose is dropped: if neither the text before the opening json fence
    nor the block holds a run of three backticks, and what follows the
    closing fence does not start with a backtick or with "json", the text
    parses to what the block alone parses to. *)
Theorem fenced_block_extracted {lax : PydanticLax} (today pre t post : str) :
  contains fence pre = false ->
  contains fence t = false ->
  startswith (lit "json") post = false ->
  startswith (lit "`") post = false ->
  clean_response (pre ++ fenced_json t ++ post) = inr (newline :: t ++ [newline]) /\
  parse_response today (pre ++ fenced_json t ++ post) = parse_response today t.
Proof.
  intros Hpre Ht Hj Hb.
  assert (Hclean : clean_response (pre ++ fenced_json t ++ post)
                   = inr (newline :: t ++ [newline])).
  { unfold clean_response, fenced_json.
    replace (pre ++ (fence_json ++ newline :: t ++ newline :: fence) ++ post)
      with (pre ++ fence_json ++ newline :: t ++ newline :: fence ++ post)
      by (now rewrite <- !app_assoc, <- !app_comm_cons, <- !app_assoc).
    pose proof (partition_opening_fence pre
                  (newline :: t ++ newline :: fence ++ post) Hpre) as Hopen.
    unfold contains. rewrite Hopen.
    destruct (index_1_split_exists _ _ _ _ fence_json_nonempty Hopen) as [n ->].
    assert (Hx : exists y,
               index (split_fuel n fence_json
                                 (newline :: t ++ newline :: fence ++ post)) 0
               = inr (newline :: t ++ newline :: fence ++ y)).
    { destruct (partition fence_json (newline :: t ++ newline :: fence ++ post))
        as [[a b]|] eqn:E.
      - rewrite (index_0_some n _ _ _ _ E).
        rewrite partition_step in E by reflexivity.
        rewrite (partition_json_after_block t post Ht Hj Hb) in E.
        destruct (partition fence_json post) as [[a' b']|]; [|discriminate].
        injection E as <- <-. now exists a'.
      - rewrite (index_0_none n _ _ E). now exists post. }
    destruct Hx as [y ->]. cbn [bind]. unfold split.
    apply index_0_some with (b := y).
    rewrite partition_step by reflexivity.
    now rewrite (partition_closing_fence_then t y Ht). }
  split; [exact Hclean|].
  unfold parse_response, parse_text.
  rewrite Hclean, (clean_response_unfenced t Ht). cbn [bind].
  now rewrite strip_line_breaks.
Qed.

(** X8 on an answer that opens with a sentence and ends with another. *)
Lemma fenced_block_extracted_witness :
  let pre := lit "Here is the data: " in
  let t := json_lit "{'vendor': 'Cafe'}" in
  let post := newline :: lit "Anything else?" in
  clean_response (pre ++ fenced_json t ++ post) = inr (newline :: t ++ [newline]) /\
  @parse_response default_lax (lit "2024-05-01") (pre ++ fenced_json t ++ post)
  = @parse_response default_lax (lit "2024-05-01") t.
Proof.
  intros pre t post.
  apply (@fenced_block_extracted default_lax (lit "2024-05-01") pre t post);
    reflexivity.
Defined.

(** * Sorting *)

Lemma str_ltb_irrefl (a : str) : str_ltb a a = false.
Proof.
  induction a as [|x a IH]; simpl; [reflexivity|].
  now rewrite N.ltb_irrefl, N.eqb_refl.
Qed.

Lemma str_ltb_trans (a b c : str) :
  str_ltb a b = true -> str_ltb b c = true -> str_ltb a c = true.
Proof.
  revert b c; induction a as [|x a IH]; intros [|y b] [|z c]; simpl;
    try easy.
  destruct (N.ltb_spec x y), (N.ltb_spec y z), (N.ltb_spec x z);
    try reflexivity; try lia;
    destruct (N.eqb_spec x y), (N.eqb_spec y z), (N.eqb_spec x z);
    try discriminate; try lia; eauto.
Qed.

Lemma str_ltb_total (a b : str) :
  str_ltb a b = false -> str_ltb b a = false -> a = b.
Proof.
  revert b; induction a as [|x a IH]; intros [|y b]; simpl; try easy.
  destruct (N.ltb_spec x y), (N.ltb_spec y x); try discriminate; try lia.
  destruct (N.eqb_spec x y), (N.eqb_spec y x); try lia.
  intros H1 H2. f_equal; auto.
Qed.

Lemma insert_by_perm {A : Type} (lt : A -> A -> bool) (x : A) (l : list A) :
  Permutation (insert_by lt x l) (x :: l).
Proof.
  induction l as [|y l IH]; simpl; [reflexivity|].
  destruct (lt y x); [|reflexivity].
  rewrite IH. apply perm_swap.
Qed.

(** [sorted] rearranges: nothing is lost, nothing is added. *)
Lemma sorted_by_perm {A : Type} (lt : A -> A -> bool) (l : list A) :
  Permutation (sorted_by lt l) l.
Proof.
  induction l as [|x l IH]; simpl; [reflexivity|].
  rewrite insert_by_perm. now constructor.
Qed.

Lemma insert_by_ext {A : Type} (lt1 lt2 : A -> A -> bool) (x : A) (l : list A) :
  (forall y, In y l -> lt1 y x = lt2 y x) ->
  insert_by lt1 x l = insert_by lt2 x l.
Proof.
  induction l as [|y l IH]; intros H; simpl; [reflexivity|].
  rewrite (H y (or_introl eq_refl)).
  destruct (lt2 y x); [|reflexivity].
  f_equal. apply IH. intros z Hz. apply H. now right.
Qed.

(** Two comparisons that agree on the distinct elements of a list sort
    it alike. *)
Lemma sorted_by_ext {A : Type} (lt1 lt2 : A -> A -> bool) (l : list A) :
  NoDup l ->
  (forall x y, In x l -> In y l -> x <> y -> lt1 x y = lt2 x y) ->
  sorted_by lt1 l = sorted_by lt2 l.
Proof.
  induction 1 as [|x l Hx Hnd IH]; intros H; simpl; [reflexivity|].
  rewrite IH by (intros; apply H; simpl; auto).
  apply insert_by_ext. intros y Hy.
  apply (Permutation_in _ (sorted_by_perm lt2 l)) in Hy.
  apply H; simpl; auto. intros ->. contradiction.
Qed.

Section KeySorted.
Context {A : Type} (key : A -> str).

Let lt (x y : A) : bool := str_ltb (key x) (key y).
Let R (x y : A) : Prop := str_ltb (key x) (key y) = true.

Lemma insert_by_key_sorted (x : A) (l : list A) :
  StronglySorted R l ->
  (forall y, In y l -> key y <> key x) ->
  StronglySorted R (insert_by lt x l).
Proof.
  induction 1 as [|y l Hs IH Hy]; intros Hk; simpl.
  - repeat constructor.
  - unfold lt at 1. destruct (str_ltb (key y) (key x)) eqn:E.
    + constructor.
      * apply IH. intros z Hz. apply Hk. now right.
      * rewrite Forall_forall in *. intros z Hz.
        apply (Permutation_in _ (insert_by_perm lt x l)) in Hz.
        destruct Hz as [<-|Hz]; [exact E | now apply Hy].
    + assert (Hxy : R x y).
      { unfold R. destruct (str_ltb (key x) (key y)) eqn:E'; [reflexivity|].
        exfalso. apply (Hk y (or_introl eq_refl)).
        now apply str_ltb_total. }
      constructor; [now constructor|].
      constructor; [exact Hxy|].
      rewrite Forall_forall in *. intros z Hz.
      unfold R. eapply str_ltb_trans; [exact Hxy | now apply Hy].
Qed.

(** A list whose keys are distinct comes out of [sorted] in strictly
    ascending order of its keys. *)
Lemma sorted_by_key_sorted (l : list A) :
  NoDup (map key l) ->
  StronglySorted R (sorted_by lt l).
Proof.
  induction l as [|x l IH]; simpl; intros Hnd; [constructor|].
  inversion_clear Hnd as [|? ? Hx Hl].
  apply insert_by_key_sorted; [now apply IH|].
  intros y Hy Heq.
  apply (Permutation_in _ (sorted_by_perm lt l)) in Hy.
  apply Hx. rewrite <- Heq. now apply in_map.
Qed.
End KeySorted.

(** * Tags *)

Lemma existsb_eqb_str (t : str) (l : list str) :
  existsb (eqb_str t) l = true <-> In t l.
Proof.
  rewrite existsb_exists. split.
  - intros (x & Hx & E). apply eqb_str_eq in E. now subst.
  - intros H. exists t. split; [exact H | apply eqb_str_refl].
Qed.

Lemma set_update_spec (all_tags tags : list str) :
  NoDup all_tags ->
  NoDup (set_update all_tags tags) /\
  forall t, In t (set_update all_tags tags) <-> In t all_tags \/ In t tags.
Proof.
  revert all_tags; induction tags as [|x tags IH]; intros all_tags Hnd; simpl.
  - split; [exact Hnd | intuition].
  - destruct (existsb (eqb_str x) all_tags) eqn:E.
    + apply existsb_eqb_str in E.
      destruct (IH all_tags Hnd) as [H1 H2]. split; [exact H1|].
      intros t. rewrite H2. intuition (subst; auto).
    + assert (Hx : ~ In x all_tags).
      { intros H. apply existsb_eqb_str in H. congruence. }
      assert (Hnd' : NoDup (all_tags ++ [x])).
      { apply NoDup_app; [exact Hnd | repeat constructor; auto |].
        intros y Hy [<-|[]]. contradiction. }
      destruct (IH _ Hnd') as [H1 H2]. split; [exact H1|].
      intros t. rewrite H2, in_app_iff. simpl. intuition.
Qed.

Lemma collect_tags_spec (expenses : list expense_doc) (acc : list str) :
  NoDup acc ->
  let all_tags :=
    fold_left (fun all_tags e => set_update all_tags (get_or (doc_tags e) []))
              expenses acc in
  NoDup all_tags /\
  forall t, In t all_tags <->
            In t acc \/
            exists e tags, In e expenses /\ doc_tags e = Some tags /\ In t tags.
Proof.
  revert acc; induction expenses as [|e expenses IH]; intros acc Hnd; simpl.
  - split; [exact Hnd|]. intros t. split; [auto|].
    intros [H|(e & tags & [] & _)]. exact H.
  - destruct (set_update_spec acc (get_or (doc_tags e) []) Hnd) as [H1 H2].
    destruct (IH _ H1) as [H3 H4]. split; [exact H3|].
    intros t. simpl in H4. rewrite H4, H2. split.
    + intros [[H|H]|(e' & tags & He' & Ht & Hin)].
      * now left.
      * right. destruct (doc_tags e) as [tags|] eqn:Et; [|destruct H].
        exists e, tags. auto.
      * right. exists e', tags. auto.
    + intros [H|(e' & tags & [<-|He'] & Ht & Hin)].
      * auto.
      * left. right. now rewrite Ht.
      * right. exists e', tags. auto.
Qed.

(** X9.  The tag listing is in strictly ascending order, so without
    repetition, and holds exactly the tags carried by some document; a
    document without a tags key contributes nothing. *)
Theorem get_tags_sorted_distinct (expenses : list expense_doc) :
  StronglySorted (fun a b => str_ltb a b = true) (get_tags expenses) /\
  forall t, In t (get_tags expenses) <->
            exists e tags, In e expenses /\ doc_tags e = Some tags /\ In t tags.
Proof.
  unfold get_tags.
  destruct (collect_tags_spec expenses [] (NoDup_nil _)) as [Hnd Hin].
  simpl in Hnd, Hin. split.
  - apply (sorted_by_key_sorted (fun t : str => t)). now rewrite map_id.
  - intros t. split.
    + intros H. apply (Permutation_in _ (sorted_by_perm _ _)) in H.
      apply Hin in H as [[]|H]. exact H.
    + intros H.
      apply (Permutation_in _ (Permutation_sym (sorted_by_perm _ _))).
      apply Hin. now right.
Qed.

(** * Analytics *)

(** ** Running totals *)

Lemma totals_get_add (k k' : str) (a : float) (totals : list (str * float)) :
  totals_get k' (totals_add k a totals)
  = if eqb_str k k'
    then Some (PrimFloat.add (match totals_get k totals with
                              | Some v => v
                              | None => 0%float
                              end) a)
    else totals_get k' totals.
Proof.
  induction totals as [|[k0 v] totals IH]; simpl; [reflexivity|].
  destruct (eqb_str k0 k) eqn:E0; simpl.
  - apply eqb_str_eq in E0. subst k0. now destruct (eqb_str k k').
  - rewrite IH. destruct (eqb_str k0 k') eqn:E1; [|reflexivity].
    apply eqb_str_eq in E1. subst k0.
    destruct (eqb_str k k') eqn:E2; [|reflexivity].
    apply eqb_str_eq in E2. subst k'. rewrite eqb_str_refl in E0. discriminate.
Qed.

Lemma totals_add_keys (k x : str) (a : float) (totals : list (str * float)) :
  In x (map fst (totals_add k a totals)) <-> x = k \/ In x (map fst totals).
Proof.
  induction totals as [|[k0 v] totals IH]; simpl; [intuition|].
  destruct (eqb_str k0 k) eqn:E0; simpl.
  - apply eqb_str_eq in E0. subst k0. intuition.
  - rewrite IH. intuition.
Qed.

Lemma totals_add_NoDup (k : str) (a : float) (totals : list (str * float)) :
  NoDup (map fst totals) -> NoDup (map fst (totals_add k a totals)).
Proof.
  induction totals as [|[k0 v] totals IH]; simpl; intros H.
  - repeat constructor. auto.
  - inversion_clear H as [|? ? Hk0 Hnd].
    destruct (eqb_str k0 k) eqn:E0; simpl; constructor; auto.
    rewrite totals_add_keys. intros [->|H]; [|contradiction].
    rewrite eqb_str_refl in E0. discriminate.
Qed.

Lemma totals_get_In (k : str) (v : float) (totals : list (str * float)) :
  NoDup (map fst totals) ->
  (In (k, v) totals <-> totals_get k totals = Some v).
Proof.
  induction totals as [|[k0 v0] totals IH]; simpl; intros H.
  - split; [contradiction | discriminate].
  - inversion_clear H as [|? ? Hk0 Hnd]. specialize (IH Hnd).
    destruct (eqb_str k0 k) eqn:E0.
    + apply eqb_str_eq in E0. subst k0. split.
      * intros [[= ->]|H]; [reflexivity|].
        exfalso. apply Hk0. change k with (fst (k, v)). now apply in_map.
      * intros [= ->]. now left.
    + rewrite <- IH. split; [|now right].
      intros [[= -> ->]|H]; [|exact H].
      rewrite eqb_str_refl in E0. discriminate.
Qed.

Lemma NoDup_keys_inj {B : Type} (l : list (str * B)) (x y : str * B) :
  NoDup (map fst l) -> In x l -> In y l -> fst x = fst y -> x = y.
Proof.
  induction l as [|z l IH]; simpl; intros H Hx Hy E; [contradiction|].
  inversion_clear H as [|? ? Hz Hnd].
  destruct Hx as [<-|Hx], Hy as [<-|Hy]; auto.
  - exfalso. apply Hz. rewrite E. now apply in_map.
  - exfalso. apply Hz. rewrite <- E. now apply in_map.
Qed.

Lemma loop_step_inr (key : expense_doc -> exn + str)
      (totals : list (str * float)) (e : expense_doc) :
  loop_step key (inr totals) e
  = match key e with
    | inl x => inl x
    | inr k =>
        match doc_amount e with
        | Some a => inr (totals_add k a totals)
        | None => inl KeyError
        end
    end.
Proof.
  unfold loop_step, bind, required.
  destruct (key e); [reflexivity|]. now destruct (doc_amount e).
Qed.

Lemma fold_loop_inl (key : expense_doc -> exn + str)
      (expenses : list expense_doc) (x : exn) :
  fold_left (loop_step key) expenses (inl x) = inl x.
Proof. induction expenses; simpl; auto. Qed.

Lemma group_amounts_cons (key : expense_doc -> exn + str) (k k0 : str)
      (a : float) (e : expense_doc) (expenses : list expense_doc) :
  key e = inr k0 -> doc_amount e = Some a ->
  group_amounts key k (e :: expenses)
  = (if eqb_str k0 k then [a] else []) ++ group_amounts key k expenses.
Proof. intros Hk Ha. unfold group_amounts. simpl. now rewrite Hk, Ha. Qed.

Lemma fold_loop_spec (key : expense_doc -> exn + str)
      (expenses : list expense_doc) (m0 m : list (str * float)) :
  fold_left (loop_step key) expenses (inr m0) = inr m ->
  NoDup (map fst m0) ->
  NoDup (map fst m) /\
  (forall e, In e expenses ->
             exists k a, key e = inr k /\ doc_amount e = Some a) /\
  (forall k,
      totals_get k m
      = match group_amounts key k expenses with
        | [] => totals_get k m0
        | g => Some (fold_left PrimFloat.add g
                               (match totals_get k m0 with
                                | Some v => v
                                | None => 0%float
                                end))
        end).
Proof.
  revert m0; induction expenses as [|e expenses IH]; intros m0;
    cbn [fold_left].
  - intros [= <-] H. split; [exact H|]. split; [intros e [] | reflexivity].
  - rewrite loop_step_inr.
    destruct (key e) as [x|k0] eqn:Ek;
      [rewrite fold_loop_inl; discriminate|].
    destruct (doc_amount e) as [a|] eqn:Ea;
      [|rewrite fold_loop_inl; discriminate].
    intros H Hnd.
    destruct (IH _ H (totals_add_NoDup k0 a m0 Hnd)) as (H1 & H2 & H3).
    split; [exact H1|]. split.
    + intros e' [<-|He']; [now exists k0, a | now apply H2].
    + intros k. rewrite (group_amounts_cons key k k0 a e expenses Ek Ea).
      rewrite (H3 k), totals_get_add.
      destruct (eqb_str k0 k) eqn:E0; simpl.
      * apply eqb_str_eq in E0. subst k0.
        now destruct (group_amounts key k expenses).
      * reflexivity.
Qed.

Lemma accumulate_eq (key : expense_doc -> exn + str) (expenses : list expense_doc) :
  accumulate key expenses = fold_left (loop_step key) expenses (inr []).
Proof. reflexivity. Qed.

(** What an accumulation loop leaves in its dict: one entry for each key
    met, holding the sum, from left to right, of the amounts of the
    expenses with that key. *)
Lemma accumulate_spec (key : expense_doc -> exn + str)
      (expenses : list expense_doc) (m : list (str * float)) :
  accumulate key expenses = inr m ->
  NoDup (map fst m) /\
  (forall k v, In (k, v) m <->
               group_amounts key k expenses <> [] /\
               v = fold_left PrimFloat.add (group_amounts key k expenses) 0%float) /\
  (forall e, In e expenses -> exists k v, key e = inr k /\ In (k, v) m).
Proof.
  rewrite accumulate_eq. intros H.
  destruct (fold_loop_spec key expenses [] m H (NoDup_nil _)) as (H1 & H2 & H3).
  split; [exact H1|]. split.
  - intros k v. rewrite (totals_get_In k v m H1), (H3 k). simpl.
    destruct (group_amounts key k expenses) as [|a g].
    + split; [discriminate | intros [[] _]; reflexivity].
    + split.
      * intros [= <-]. split; [discriminate | reflexivity].
      * intros [_ ->]. reflexivity.
  - intros e He. destruct (H2 e He) as (k & a & Hk & Ha).
    exists k. specialize (H3 k).
    assert (Hg : group_amounts key k expenses <> []).
    { clear -He Hk Ha. induction expenses as [|e' expenses IH];
        [contradiction|].
      unfold group_amounts. simpl. destruct He as [->|He].
      - rewrite Hk, Ha, eqb_str_refl. discriminate.
      - specialize (IH He). unfold group_amounts in IH.
        intros H. apply app_eq_nil in H as [_ H]. contradiction. }
    destruct (group_amounts key k expenses) as [|a0 g]; [congruence|].
    eexists. split; [exact Hk|]. apply (totals_get_In _ _ _ H1). exact H3.
Qed.



(** ** The summary *)



(** The pieces of a summary computed from at least one document. *)
Lemma summary_inv {builtins : Builtins} (e0 : expense_doc)
      (expenses : list expense_doc) (s : analytics_summary) :
  get_analytics_summary (e0 :: expenses) = inr s ->
  exists amounts cm vm mm,
    map_exn (fun e => required (doc_amount e)) (e0 :: expenses) = inr amounts /\
    accumulate category_key (e0 :: expenses) = inr cm /\
    accumulate vendor_key (e0 :: expenses) = inr vm /\
    accumulate month_key (e0 :: expenses) = inr mm /\
    category_breakdown s
    = map (fun kv =>
             mkEntry (fst kv) (snd kv)
                     (if PrimFloat.ltb 0 (sum_floats amounts)
                      then PyFloat (PrimFloat.mul
                                      (PrimFloat.div (snd kv) (sum_floats amounts))
                                      100)
                      else PyInt 0))
          (sorted_by by_amount_desc cm) /\
    top_vendors s = firstn 10 (sorted_by by_amount_desc vm) /\
    monthly_trend s = sorted_by pair_ltb mm /\
    expense_count s = Z.of_nat (length (e0 :: expenses)).
Proof.
  unfold get_analytics_summary, bind.
  destruct (map_exn _ (e0 :: expenses)) as [x|amounts]; [discriminate|].
  destruct (accumulate category_key _) as [x|cm]; [discriminate|].
  destruct (accumulate vendor_key _) as [x|vm]; [discriminate|].
  destruct (accumulate month_key _) as [x|mm]; [discriminate|].
  intros [= <-]. exists amounts, cm, vm, mm. repeat split.
Qed.

(** X10.  The category breakdown has one entry for each category met,
    "Other" standing for a document without category; the amount of an
    entry is the sum, from left to right, of the amounts of the documents
    of that category. *)
Theorem category_breakdown_groups {builtins : Builtins}
        (expenses : list expense_doc) (s : analytics_summary) :
  get_analytics_summary expenses = inr s ->
  NoDup (map entry_category (category_breakdown s)) /\
  (forall entry,
      In entry (category_breakdown s) ->
      group_amounts category_key (entry_category entry) expenses <> [] /\
      entry_amount entry
      = fold_left PrimFloat.add
                  (group_amounts category_key (entry_category entry) expenses)
                  0%float) /\
  (forall e,
      In e expenses ->
      exists entry,
        In entry (category_breakdown s) /\
        entry_category entry = get_or (doc_category e) (lit "Other")).
Proof.
  destruct expenses as [|e0 expenses].
  - intros [= <-]. simpl. split; [constructor|].
    split; [intros entry [] | intros e []].
  - intros H.
    apply summary_inv in H as (amounts & cm & vm & mm & _ & Hc & _ & _ & -> & _).
    destruct (accumulate_spec _ _ _ Hc) as (Hnd & Hin & Hall).
    pose proof (sorted_by_perm by_amount_desc cm) as Hp.
    split; [|split].
    + rewrite map_map. cbn [entry_category].
      apply (Permutation_NoDup (l := map fst cm)); [|exact Hnd].
      apply Permutation_map. now symmetry.
    + intros entry He. apply in_map_iff in He as ([k v] & <- & Hkv).
      cbn [entry_category entry_amount fst snd].
      apply (Permutation_in _ Hp) in Hkv. now apply Hin.
    + intros e He. destruct (Hall e He) as (k & v & Hk & Hkv).
      injection Hk as <-.
      eexists. split.
      * apply in_map. apply (Permutation_in _ (Permutation_sym Hp)). exact Hkv.
      * reflexivity.
Qed.

(** X10 on three documents in two categories. *)
Lemma category_breakdown_groups_witness :
  let docs :=
    [ mkDoc (Some (lit "Rail")) (Some (lit "2024-03-05")) (Some 2.5%float)
            (Some (lit "Travel")) None;
      mkDoc None (Some (lit "2024-01-09")) (Some 4%float) None None;
      mkDoc (Some (lit "Rail")) (Some (lit "2024-03-07")) (Some 1.5%float)
            (Some (lit "Travel")) None ] in
  exists s,
    @get_analytics_summary plain_sum docs = inr s /\
    NoDup (map entry_category (category_breakdown s)) /\
    (forall entry,
        In entry (category_breakdown s) ->
        group_amounts category_key (entry_category entry) docs <> [] /\
        entry_amount entry
        = fold_left PrimFloat.add
                    (group_amounts category_key (entry_category entry) docs)
                    0%float) /\
    (forall e,
        In e docs ->
        exists entry,
          In entry (category_breakdown s) /\
          entry_category entry = get_or (doc_category e) (lit "Other")).
Proof.
  intros docs. eexists. split; [vm_compute; reflexivity|].
  apply (@category_breakdown_groups plain_sum docs). vm_compute. reflexivity.
Defined.

Lemma NoDup_firstn {A : Type} (n : nat) (l : list A) :
  NoDup l -> NoDup (firstn n l).
Proof.
  intros H. rewrite <- (firstn_skipn n l) in H.
  now apply NoDup_app_remove_r in H.
Qed.

Lemma In_firstn {A : Type} (n : nat) (l : list A) (x : A) :
  In x (firstn n l) -> In x l.
Proof.
  intros H. rewrite <- (firstn_skipn n l). apply in_or_app. now left.
Qed.

(** X11.  The list of top vendors never has more than ten entries nor
    twice the same vendor, "Unknown" standing for a document without
    vendor; the amount of an entry is the sum, from left to right, of the
    amounts of the documents of that vendor. *)
Theorem top_vendors_bounded {builtins : Builtins}
        (expenses : list expense_doc) (s : analytics_summary) :
  get_analytics_summary expenses = inr s ->
  (length (top_vendors s) <= 10)%nat /\
  NoDup (map fst (top_vendors s)) /\
  forall k v,
    In (k, v) (top_vendors s) ->
    group_amounts vendor_key k expenses <> [] /\
    v = fold_left PrimFloat.add (group_amounts vendor_key k expenses) 0%float.
Proof.
  destruct expenses as [|e0 expenses].
  - intros [= <-]. simpl. split; [lia|]. split; [constructor | intros k v []].
  - intros H.
    apply summary_inv in H as (amounts & cm & vm & mm & _ & _ & Hv & _ & _ & -> & _).
    destruct (accumulate_spec _ _ _ Hv) as (Hnd & Hin & _).
    pose proof (sorted_by_perm by_amount_desc vm) as Hp.
    split; [|split].
    + rewrite length_firstn. lia.
    + rewrite <- firstn_map. apply NoDup_firstn.
      apply (Permutation_NoDup (l := map fst vm)); [|exact Hnd].
      apply Permutation_map. now symmetry.
    + intros k v Hkv. apply In_firstn in Hkv.
      apply (Permutation_in _ Hp) in Hkv. now apply Hin.
Qed.

(** X11 on twelve documents of twelve vendors. *)
Lemma top_vendors_bounded_witness :
  let doc v a :=
    mkDoc (Some (lit v)) (Some (lit "2024-03-05")) (Some a) None None in
  let docs :=
    [ doc "a"%string 1%float; doc "b"%string 2%float; doc "c"%string 3%float;
      doc "d"%string 4%float; doc "e"%string 5%float; doc "f"%string 6%float;
      doc "g"%string 7%float; doc "h"%string 8%float; doc "i"%string 9%float;
      doc "j"%string 10%float; doc "k"%string 11%float;
      doc "l"%string 12%float ] in
  exists s,
    @get_analytics_summary plain_sum docs = inr s /\
    (length (top_vendors s) <= 10)%nat /\
    NoDup (map fst (top_vendors s)) /\
    forall k v,
      In (k, v) (top_vendors s) ->
      group_amounts vendor_key k docs <> [] /\
      v = fold_left PrimFloat.add (group_amounts vendor_key k docs) 0%float.
Proof.
  intros doc docs. eexists. split; [vm_compute; reflexivity|].
  apply (@top_vendors_bounded plain_sum docs). vm_compute. reflexivity.
Defined.

Lemma pair_ltb_on_keys (x y : str * float) :
  fst x <> fst y -> pair_ltb x y = str_ltb (fst x) (fst y).
Proof.
  intros H. unfold pair_ltb.
  destruct (eqb_str (fst x) (fst y)) eqn:E; [|reflexivity].
  apply eqb_str_eq in E. contradiction.
Qed.

(** X12.  The monthly trend is in strictly ascending order of its
    months, each month once; a month is the first seven characters of the
    date of some document, and its amount is the sum, from left to right,
    of the amounts of the documents of that month. *)
Theorem monthly_trend_ascending {builtins : Builtins}
        (expenses : list expense_doc) (s : analytics_summary) :
  get_analytics_summary expenses = inr s ->
  StronglySorted (fun x y => str_ltb (fst x) (fst y) = true) (monthly_trend s) /\
  (forall k v,
      In (k, v) (monthly_trend s) ->
      group_amounts month_key k expenses <> [] /\
      v = fold_left PrimFloat.add (group_amounts month_key k expenses) 0%float) /\
  (forall e d,
      In e expenses -> doc_date e = Some d ->
      exists v, In (firstn 7 d, v) (monthly_trend s)).
Proof.
  destruct expenses as [|e0 expenses].
  - intros [= <-]. simpl. split; [constructor|].
    split; [intros k v [] | intros e d []].
  - intros H.
    apply summary_inv in H as (amounts & cm & vm & mm & _ & _ & _ & Hm & _ & _ & -> & _).
    destruct (accumulate_spec _ _ _ Hm) as (Hnd & Hin & Hall).
    pose proof (sorted_by_perm pair_ltb mm) as Hp.
    split; [|split].
    + rewrite (sorted_by_ext pair_ltb (fun x y => str_ltb (fst x) (fst y)) mm).
      * now apply (sorted_by_key_sorted (@fst str float)).
      * now apply NoDup_map_inv in Hnd.
      * intros x y Hx Hy Hxy. apply pair_ltb_on_keys.
        intros E. apply Hxy. now apply (NoDup_keys_inj mm).
    + intros k v Hkv. apply (Permutation_in _ Hp) in Hkv. now apply Hin.
    + intros e d He Hd. destruct (Hall e He) as (k & v & Hk & Hkv).
      unfold month_key in Hk. rewrite Hd in Hk. injection Hk as <-.
      exists v. now apply (Permutation_in _ (Permutation_sym Hp)).
Qed.

(** X12 on three documents of two months. *)
Lemma monthly_trend_ascending_witness :
  let docs :=
    [ mkDoc (Some (lit "Rail")) (Some (lit "2024-03-05")) (Some 2.5%float)
            (Some (lit "Travel")) None;
      mkDoc None (Some (lit "2024-01-09")) (Some 4%float) None None;
      mkDoc (Some (lit "Rail")) (Some (lit "2024-03-07")) (Some 1.5%float)
            (Some (lit "Travel")) None ] in
  exists s,
    @get_analytics_summary plain_sum docs = inr s /\
    StronglySorted (fun x y => str_ltb (fst x) (fst y) = true) (monthly_trend s) /\
    (forall k v,
        In (k, v) (monthly_trend s) ->
        group_amounts month_key k docs <> [] /\
        v = fold_left PrimFloat.add (group_amounts month_key k docs) 0%float) /\
    (forall e d,
        In e docs -> doc_date e = Some d ->
        exists v, In (firstn 7 d, v) (monthly_trend s)).
Proof.
  intros docs. eexists. split; [vm_compute; reflexivity|].
  apply (@monthly_trend_ascending plain_sum docs). vm_compute. reflexivity.
Defined.



(** * Tags and the order of the documents *)

Lemma get_tags_strict (expenses : list expense_doc) :
  StronglySorted (fun a b => str_ltb a b = true) (get_tags expenses).
Proof.
  unfold get_tags.
  destruct (collect_tags_spec expenses [] (NoDup_nil _)) as [Hnd _].
  simpl in Hnd.
  apply (sorted_by_key_sorted (fun t : str => t)). now rewrite map_id.
Qed.

Lemma get_tags_In (expenses : list expense_doc) (t : str) :
  In t (get_tags expenses) <->
  exists e tags, In e expenses /\ doc_tags e = Some tags /\ In t tags.
Proof.
  unfold get_tags.
  destruct (collect_tags_spec expenses [] (NoDup_nil _)) as [_ Hin].
  simpl in Hin. split.
  - intros H. apply (Permutation_in _ (sorted_by_perm _ _)) in H.
    apply Hin in H as [[]|H]. exact H.
  - intros H.
    apply (Permutation_in _ (Permutation_sym (sorted_by_perm _ _))).
    apply Hin. now right.
Qed.

(** Two strictly ascending lists with the same elements are equal. *)
Lemma strictly_sorted_unique (l1 l2 : list str) :
  StronglySorted (fun a b => str_ltb a b = true) l1 ->
  StronglySorted (fun a b => str_ltb a b = true) l2 ->
  (forall t, In t l1 <-> In t l2) ->
  l1 = l2.
Proof.
  intros H1; revert l2; induction H1 as [|a l1 Hs1 IH Ha]; intros l2 H2 Hin.
  - destruct l2 as [|b l2]; [reflexivity|].
    destruct (proj2 (Hin b) (or_introl eq_refl)).
  - destruct H2 as [|b l2 Hs2 Hb].
    + destruct (proj1 (Hin a) (or_introl eq_refl)).
    + rewrite Forall_forall in Ha, Hb.
      assert (E : a = b).
      { destruct (proj1 (Hin a) (or_introl eq_refl)) as [E|Ha2]; [now symmetry|].
        destruct (proj2 (Hin b) (or_introl eq_refl)) as [E|Hb1]; [exact E|].
        pose proof (str_ltb_trans _ _ _ (Ha _ Hb1) (Hb _ Ha2)) as C.
        rewrite str_ltb_irrefl in C. discriminate. }
      subst b. f_equal. apply IH; [exact Hs2|].
      intros t; split; intros Ht.
      * destruct (proj1 (Hin t) (or_intror Ht)) as [E|H]; [|exact H].
        subst t. pose proof (Ha _ Ht) as C.
        rewrite str_ltb_irrefl in C. discriminate.
      * destruct (proj2 (Hin t) (or_intror Ht)) as [E|H]; [|exact H].
        subst t. pose proof (Hb _ Ht) as C.
        rewrite str_ltb_irrefl in C. discriminate.
Qed.

(** X14.  The tag listing does not depend on the order in which the
    database hands over the documents. *)
Theorem get_tags_order_independent (expenses expenses' : list expense_doc) :
  Permutation expenses expenses' ->
  get_tags expenses = get_tags expenses'.
Proof.
  intros Hp. apply strictly_sorted_unique; try apply get_tags_strict.
  intros t. rewrite !get_tags_In. split; intros (e & tags & He & Ht & Hin);
    exists e, tags; (split; [|split]); try assumption.
  - now apply (Permutation_in _ Hp).
  - now apply (Permutation_in _ (Permutation_sym Hp)).
Qed.

(** X14 on two documents that share a tag, in both orders. *)
Lemma get_tags_order_independent_witness :
  let d1 := mkDoc None None None None (Some [lit "work"; lit "q3"]) in
  let d2 := mkDoc None None None None (Some [lit "home"; lit "work"]) in
  get_tags [d1; d2] = get_tags [d2; d1].
Proof.
  intros d1 d2. apply (get_tags_order_independent [d1; d2] [d2; d1]).
  apply perm_swap.
Defined.

(** * Upload *)

(** X15.  The upload gate goes by the announced content type and the
    scanner by the signature of the bytes: a PDF announced as a PDF is
    accepted by the upload, which returns it as a data URL, and refused by
    the scanner with status 400. *)
Theorem upload_accepts_pdf_scan_refuses
        {pil : PIL} {provider : Provider} {lax : PydanticLax}
        (today : str) (file : UploadFile) :
  has_prefix pdf_signature (file_content file) ->
  content_type file = Some application_pdf ->
  upload_receipt_image file
  = inr (mkUploaded (lit "data:application/pdf;base64,"
                       ++ b64encode (file_content file))
                    application_pdf) /\
  scan_receipt today file = inl (mkHTTP 400 PdfNotSupported).
Proof.
  intros [rest Hc] Ht. split.
  - unfold upload_receipt_image. rewrite Ht. reflexivity.
  - unfold scan_receipt, normalize_image. rewrite Hc. reflexivity.
Qed.

(** X15 on a file of eight bytes. *)
Lemma upload_accepts_pdf_scan_refuses_witness :
  let file := mkUpload [x25; x50; x44; x46; x2d; x31; x2e; x34]
                       (Some application_pdf) in
  upload_receipt_image file
  = inr (mkUploaded (lit "data:application/pdf;base64,JVBERi0xLjQ=")
                    application_pdf) /\
  @scan_receipt (toy_pil 10 10 (lit "RGB") 1) (stub_provider (lit "{}"))
                default_lax (lit "2024-03-05") file
  = inl (mkHTTP 400 PdfNotSupported).
Proof.
  intros file.
  apply (@upload_accepts_pdf_scan_refuses
           (toy_pil 10 10 (lit "RGB") 1) (stub_provider (lit "{}"))
           default_lax (lit "2024-03-05") file).
  - exists [x2d; x31; x2e; x34]. reflexivity.
  - reflexivity.
Defined.

(** * Authentication *)

Lemma space_nonempty : space <> [].
Proof. discriminate. Qed.

Lemma partition_bearer (rest : str) :
  partition space (bearer ++ rest) = Some (lit "Bearer", rest).
Proof.
  change (bearer ++ rest) with (lit "Bearer" ++ space ++ rest).
  assert (H : forall (a : str) b,
             partition space a = None ->
             partition space (a ++ space ++ b) = Some (a, b)).
  { induction a as [|c a IH]; intros b Ha.
    - exact (partition_here space b).
    - pose proof (partition_none_startswith _ _ Ha) as Hs.
      pose proof (partition_none_tail _ _ _ Ha) as Hl.
      change ((c :: a) ++ space ++ b) with (c :: (a ++ space ++ b)).
      rewrite partition_step.
      + now rewrite IH.
      + exact Hs. }
  apply H. reflexivity.
Qed.

(** The second piece of a header that starts with "Bearer ". *)
Lemma bearer_second_piece (rest : str) :
  exists n, index (split space (bearer ++ rest)) 1
            = index (split_fuel n space rest) 0.
Proof.
  apply (index_1_split_exists space (bearer ++ rest) (lit "Bearer") rest).
  - exact space_nonempty.
  - apply partition_bearer.
Qed.

Lemma partition_token_then_space (token rest : str) :
  contains space token = false ->
  partition space (token ++ space ++ rest) = Some (token, rest).
Proof.
  unfold contains. destruct (partition space token) eqn:E; [discriminate|].
  intros _. revert E. induction token as [|c token IH]; intros E.
  - exact (partition_here space rest).
  - pose proof (partition_none_startswith _ _ E) as Hs.
    pose proof (partition_none_tail _ _ _ E) as Hl.
    change ((c :: token) ++ space ++ rest) with (c :: (token ++ space ++ rest)).
    rewrite partition_step.
    + now rewrite IH.
    + exact Hs.
Qed.

Lemma starts_with_space (rest : str) :
  startswith space rest = true -> exists r, rest = space ++ r.
Proof.
  destruct rest as [|c r]; [discriminate|].
  intros H. apply startswith_decompose in H. now exists r.
Qed.

(** The token of a header "Bearer <token>", followed by nothing or by a
    space. *)
Lemma bearer_token (token rest : str) :
  contains space token = false ->
  rest = [] \/ startswith space rest = true ->
  index (split space (bearer ++ token ++ rest)) 1 = inr token.
Proof.
  intros Ht Hr. destruct (bearer_second_piece (token ++ rest)) as [n ->].
  destruct Hr as [->|Hr].
  - rewrite app_nil_r. apply index_0_none.
    unfold contains in Ht. now destruct (partition space token).
  - apply starts_with_space in Hr as [r ->].
    eapply index_0_some. now apply partition_token_then_space.
Qed.

Lemma truthy_false (s : option str) :
  truthy s = false -> s = None \/ s = Some [].
Proof. destruct s as [[|c s]|]; simpl; auto; discriminate. Qed.

(** X16.  Without session cookie, a header "Bearer <token>" stands for
    the cookie: when the token is not empty and has no space, and nothing
    or a space follows it, the request is answered exactly like the one
    that carries the token as its cookie, whose Authorization header is
    not read. *)
Theorem bearer_token_as_cookie {store : AuthStore} (now : Z)
        (cookie other : option str) (token rest : str) :
  truthy cookie = false ->
  token <> [] ->
  contains (lit " ") token = false ->
  rest = [] \/ startswith (lit " ") rest = true ->
  get_current_user now
    (mkRequest cookie (Some (lit "Bearer " ++ token ++ rest)))
  = get_current_user now (mkRequest (Some token) other).
Proof.
  intros Hc Hne Ht Hr. unfold get_current_user, request_token.
  cbn [cookie_session_token header_authorization].
  rewrite Hc. cbn [negb get_or].
  change (lit "Bearer " ++ token ++ rest) with (bearer ++ token ++ rest).
  change (lit "Bearer ") with bearer. change (lit " ") with space.
  rewrite startswith_refl, (bearer_token token rest Ht Hr).
  destruct token as [|c token]; [congruence|]. reflexivity.
Qed.

(** X16 on a header with a token, against the cookie of a store that
    knows the token. *)
Lemma bearer_token_as_cookie_witness :
  @get_current_user (toy_store (lit "tok") (StoredStr (lit "100"))) 50
    (mkRequest None (Some (lit "Bearer " ++ lit "tok" ++ [])))
  = @get_current_user (toy_store (lit "tok") (StoredStr (lit "100"))) 50
      (mkRequest (Some (lit "tok")) None).
Proof.
  apply (@bearer_token_as_cookie
           (toy_store (lit "tok") (StoredStr (lit "100"))) 50
           None None (lit "tok") []).
  - reflexivity.
  - discriminate.
  - reflexivity.
  - left. reflexivity.
Defined.

(** X17.  A request without session cookie is refused with 401 "Not
    authenticated", whatever the database holds, when it has no
    Authorization header, when the header does not start with "Bearer ",
    and when nothing or a space follows "Bearer ". *)
Theorem no_token_not_authenticated {store : AuthStore} (now : Z)
        (cookie header : option str) :
  truthy cookie = false ->
  header = None \/
  startswith (lit "Bearer ") (get_or header []) = false \/
  (exists rest, header = Some (lit "Bearer " ++ rest) /\
                (rest = [] \/ startswith (lit " ") rest = true)) ->
  get_current_user now (mkRequest cookie header)
  = inl (HTTP 401 (lit "Not authenticated")).
Proof.
  intros Hc H. unfold get_current_user, request_token.
  cbn [cookie_session_token header_authorization].
  rewrite Hc. cbn [negb].
  destruct H as [->|[H|(rest & -> & Hr)]].
  - cbn [truthy andb bind]. now rewrite Hc.
  - rewrite H, andb_false_r. cbn [bind]. now rewrite Hc.
  - cbn [get_or].
    change (lit "Bearer " ++ rest) with (bearer ++ [] ++ rest).
    change (lit "Bearer ") with bearer. change (lit " ") with space.
    rewrite startswith_refl, (bearer_token [] rest eq_refl Hr).
    reflexivity.
Qed.

(** X17 on a header with two spaces before the token. *)
Lemma no_token_not_authenticated_witness :
  @get_current_user (toy_store (lit "tok") (StoredStr (lit "100"))) 50
    (mkRequest (Some []) (Some (lit "Bearer " ++ lit " tok")))
  = inl (HTTP 401 (lit "Not authenticated")).
Proof.
  apply (@no_token_not_authenticated
           (toy_store (lit "tok") (StoredStr (lit "100"))) 50
           (Some []) (Some (lit "Bearer " ++ lit " tok"))).
  - reflexivity.
  - right. right. exists (lit " tok"). split; [reflexivity|].
    right. reflexivity.
Defined.

(** X18.  Reading the token never raises: a header that starts with
    "Bearer " always has a second piece, so [split(" ")[1]] is in
    range. *)
Theorem request_token_never_raises (request : Request) :
  exists token, request_token request = inr token.
Proof.
  unfold request_token.
  destruct (truthy (cookie_session_token request)); cbn [negb]; [eauto|].
  destruct (header_authorization request) as [[|c h']|];
    cbn [truthy andb get_or]; [eauto| |eauto].
  set (h := c :: h').
  destruct (startswith (lit "Bearer ") h) eqn:E; [|eauto].
  apply startswith_decompose in E. rewrite E.
  change (lit "Bearer ") with bearer. change (lit " ") with space.
  destruct (bearer_second_piece (skipn (length bearer) h)) as [n ->].
  destruct (partition space (skipn (length bearer) h)) as [[a b]|] eqn:Ep.
  - rewrite (index_0_some n _ _ _ _ Ep). cbn. eauto.
  - rewrite (index_0_none n _ _ Ep). cbn. eauto.
Qed.

(** X19.  A user is returned only for a request that carries a
    non-empty token, as its cookie or else as the second piece of a
    "Bearer " header, for which the database holds a session whose expiry,
    read as UTC when it has no time zone, is not before the current
    instant, and whose user the database holds. *)
Theorem authenticated_only_with_live_session {store : AuthStore} (now : Z)
        (request : Request) (user : User) :
  get_current_user now request = inr user ->
  exists token session expires_at user_id doc,
    token <> [] /\
    (cookie_session_token request = Some token \/
     truthy (cookie_session_token request) = false /\
     exists h, header_authorization request = Some h /\
               startswith (lit "Bearer ") h = true /\
               index (split (lit " ") h) 1 = inr token) /\
    find_session token = inr (Some session) /\
    (session_expires_at session = Some (StoredDatetime expires_at) \/
     exists s, session_expires_at session = Some (StoredStr s) /\
               fromisoformat s = inr expires_at) /\
    now <= wall_clock expires_at - get_or (utcoffset expires_at) 0 /\
    session_user_id session = Some user_id /\
    find_user user_id = inr (Some doc) /\
    User_init doc = inr user.
Proof.
  unfold get_current_user. intros H.
  destruct (request_token request) as [f|[[|c token]|]] eqn:Et;
    cbn [bind truthy negb get_or] in H; try discriminate.
  unfold user_of_token in H.
  destruct (find_session (c :: token)) as [x|[session|]] eqn:Es;
    cbn [uncaught bind] in H; try discriminate.
  destruct (session_expires_at session) as [stored_value|] eqn:Ee;
    cbn [required uncaught bind] in H; try discriminate.
  set (read := match stored_value with
               | StoredStr s => fromisoformat s
               | StoredDatetime d => inr d
               | StoredOther => inl AttributeError
               end) in H.
  destruct read as [x|expires_at] eqn:Er; subst read;
    cbn [uncaught bind] in H; try discriminate.
  destruct (before _ now) eqn:Eb; try discriminate.
  destruct (session_user_id session) as [user_id|] eqn:Eu;
    cbn [required uncaught bind] in H; try discriminate.
  destruct (find_user user_id) as [x|[doc|]] eqn:Ef;
    cbn [uncaught bind] in H; try discriminate.
  destruct (User_init doc) as [x|u] eqn:Ei; cbn [uncaught] in H;
    try discriminate.
  injection H as <-.
  exists (c :: token), session, expires_at, user_id, doc.
  split; [discriminate|]. split; [|split; [exact Es|split; [|split]]].
  - unfold request_token in Et.
    destruct (truthy (cookie_session_token request)) eqn:Ec; cbn [negb] in Et.
    + left. now injection Et.
    + right. split; [reflexivity|].
      assert (Hno : inr (cookie_session_token request)
                    <> (inr (Some (c :: token)) : failure + option str)).
      { intros [= E]. rewrite E in Ec. discriminate. }
      destruct (header_authorization request) as [[|c' h']|];
        cbn [truthy andb get_or] in Et; try (now elim Hno).
      set (h := c' :: h') in *.
      destruct (startswith (lit "Bearer ") h) eqn:Eh; try (now elim Hno).
      exists h. split; [reflexivity|]. split; [exact Eh|].
      destruct (index (split (lit " ") h) 1) as [x|t];
        cbn [uncaught bind] in Et; [discriminate|].
      now injection Et as ->.
  - destruct stored_value as [s|d|]; [right|left|discriminate].
    + exists s. now split.
    + now injection Er as ->.
  - unfold before in Eb. apply Z.ltb_ge in Eb.
    destruct (utcoffset expires_at) as [off|] eqn:Eo.
    + rewrite Eo in Eb. exact Eb.
    + exact Eb.
  - split; [exact Eu|]. split; [exact Ef | exact Ei].
Qed.

(** X19 on a request whose cookie the store knows. *)
Lemma authenticated_only_with_live_session_witness :
  let store := toy_store (lit "tok") (StoredStr (lit "100")) in
  let request := mkRequest (Some (lit "tok")) None in
  exists token session expires_at user_id doc,
    token <> [] /\
    (cookie_session_token request = Some token \/
     truthy (cookie_session_token request) = false /\
     exists h, header_authorization request = Some h /\
               startswith (lit "Bearer ") h = true /\
               index (split (lit " ") h) 1 = inr token) /\
    @find_session store token = inr (Some session) /\
    (session_expires_at session = Some (StoredDatetime expires_at) \/
     exists s, session_expires_at session = Some (StoredStr s) /\
               @fromisoformat store s = inr expires_at) /\
    50 <= wall_clock expires_at - get_or (utcoffset expires_at) 0 /\
    session_user_id session = Some user_id /\
    @find_user store user_id = inr (Some doc) /\
    @User_init store doc = inr (lit "Ada").
Proof.
  intros store request.
  apply (@authenticated_only_with_live_session store 50 request (lit "Ada")).
  reflexivity.
Defined.
